(** * InstanceManager: a shallow embedding of [src/InstanceManager.py]

    The Python class [InstanceManager] drives two external services: the
    EC2 provider (through boto3) and remote shells (through paramiko).
    The embedding keeps the attributes of the object in a record, threads
    it through a state-and-exception monad, and records every call that
    leaves the process (provider calls, shell calls, [print], [time.sleep])
    in a trace.  What an external call answers is not decided here: it is
    read from a [World], a family of oracles that see the trace so far. *)

From stdpp Require Import gmap strings list pretty.

Open Scope Z_scope.
Open Scope string_scope.

(** ** Data *)

(** A boto3 [Instance] resource: the identifier the provider assigned and
    the public address the shell connects to. *)
Record Instance := { id : string; public_ip_address : string }.

(** boto3 resources compare by their identifiers, so [instance in
    self.instances] is a search for an equal [id]. *)
Definition instance_eqb (a b : Instance) : bool := String.eqb (id a) (id b).

Definition instance_in (i : Instance) (l : list Instance) : bool :=
  existsb (instance_eqb i) l.

(** The exceptions the source raises, catches or lets through. *)
Inductive exn :=
| TypeError
| KeyError (key : string)
| TimeoutError
| NoValidConnectionsError
| AuthenticationException
| IndexError
| ClientError (message : string)
| OtherError (message : string).

(** The lifecycle methods of a boto3 instance used by the manager. *)
Inductive lifecycle :=
| Terminate | Start | Stop
| WaitUntilTerminated | WaitUntilRunning | WaitUntilStopped.

(** A paramiko [SSHClient] object is known by the rank of its creation. *)
Definition client := nat.

(** What the process does to the outside, in order. [EvPrint] carries the
    text written to standard output, line terminator included. *)
Inductive event :=
| EvPrint (text : string)
| EvSleep (seconds : Z)
| EvInstance (call : lifecycle) (instance_id : string)
| EvConnect (c : client) (hostname username : string) (password : option string)
| EvClose (c : client)
| EvExecCommand (c : client) (command : string)
| EvOpenSftp (c : client)
| EvSftpPut (c : client) (source destination : string)
| EvSftpClose (c : client)
| EvCreateSecurityGroup (group_name description : string)
| EvAuthorizeIngress (group_id : string)
| EvDescribeSecurityGroups (group_name : string)
| EvDeleteSecurityGroup (environment_credentials : bool) (group_id : string).

(** The answer of [exec_command] followed by [recv_exit_status] and the
    two [readlines]. *)
Record exec_result := {
  exit_status : Z;
  stdout_lines : list string;
  stderr_lines : list string
}.

(** The outside world: each oracle sees the trace before the call and
    answers it, [None] standing for a normal return. *)
Record World := {
  w_instance : list event → lifecycle → Instance → option exn;
  w_load_key : list event → option string → option exn;
  w_connect : list event → Instance → option exn;
  w_exec : list event → client → string → exn + exec_result;
  w_open_sftp : list event → client → option exn;
  w_sftp_put : list event → client → string → string → option exn;
  w_create_group : list event → exn + string;
  w_authorize_ingress : list event → string → option exn;
  w_describe_groups : list event → exn + list string;
  w_delete_group : list event → string → option exn
}.

(** The constructor arguments that the modelled methods read. *)
Record Config := {
  key_file : option string;
  username : string;
  home_directory : string;
  environment_configuration : bool
}.

(** The attributes of the manager, the allocation counter of shell
    clients, and the trace. *)
Record State := {
  config : Config;
  instances : list Instance;
  ssh_clients : gmap string client;
  security_group_ids : option (list string);
  security_group_created : bool;
  next_client : client;
  trace : list event
}.

(** [__init__]: no instance, no session, the rule sets the caller gave,
    no rule set of its own. *)
Definition init (cfg : Config) (groups : option (list string)) : State :=
  {| config := cfg; instances := []; ssh_clients := ∅;
     security_group_ids := groups; security_group_created := false;
     next_client := 0%nat; trace := [] |}.

Definition set_instances (l : list Instance) (s : State) : State :=
  {| config := config s; instances := l;
     ssh_clients := ssh_clients s;
     security_group_ids := security_group_ids s;
     security_group_created := security_group_created s;
     next_client := next_client s; trace := trace s |}.

Definition set_trace (t : list event) (s : State) : State :=
  {| config := config s; instances := instances s;
     ssh_clients := ssh_clients s;
     security_group_ids := security_group_ids s;
     security_group_created := security_group_created s;
     next_client := next_client s; trace := t |}.

Definition set_ssh_clients (m : gmap string client) (s : State) : State :=
  {| config := config s; instances := instances s;
     ssh_clients := m;
     security_group_ids := security_group_ids s;
     security_group_created := security_group_created s;
     next_client := next_client s; trace := trace s |}.

Definition set_next_client (n : client) (s : State) : State :=
  {| config := config s; instances := instances s;
     ssh_clients := ssh_clients s;
     security_group_ids := security_group_ids s;
     security_group_created := security_group_created s;
     next_client := n; trace := trace s |}.

Definition set_security_group_ids (g : option (list string)) (s : State) : State :=
  {| config := config s; instances := instances s;
     ssh_clients := ssh_clients s;
     security_group_ids := g;
     security_group_created := security_group_created s;
     next_client := next_client s; trace := trace s |}.

Definition set_security_group_created (b : bool) (s : State) : State :=
  {| config := config s; instances := instances s;
     ssh_clients := ssh_clients s;
     security_group_ids := security_group_ids s;
     security_group_created := b;
     next_client := next_client s; trace := trace s |}.

(** ** The monad of methods *)

Inductive outcome (A : Type) :=
| Return (a : A)
| Raise (e : exn).
Arguments Return {A} a.
Arguments Raise {A} e.

(** A method body: it ends normally or by an exception, and the state it
    has built is kept either way. *)
Definition M (A : Type) : Type := State → outcome A * State.

Definition ret {A} (a : A) : M A := λ s, (Return a, s).

Definition bind {A B} (m : M A) (k : A → M B) : M B :=
  λ s, match m s with
       | (Return a, s') => k a s'
       | (Raise e, s') => (Raise e, s')
       end.

Definition raise {A} (e : exn) : M A := λ s, (Raise e, s).

Definition get : M State := λ s, (Return s, s).

Definition modify (f : State → State) : M unit := λ s, (Return tt, f s).

(** [try: body except e: handler e] *)
Definition try_except {A} (body : M A) (handler : exn → M A) : M A :=
  λ s, match body s with
       | (Return a, s') => (Return a, s')
       | (Raise e, s') => handler e s'
       end.

Declare Scope im_scope.
Delimit Scope im_scope with im.
Notation "x <- m ;; k" := (bind m (λ x, k))
  (at level 100, m at next level, right associativity) : im_scope.
Notation "m ;;; k" := (bind m (λ _, k))
  (at level 100, right associativity) : im_scope.
Open Scope im_scope.

(** [for x in l: body x] *)
Fixpoint for_each {A} (l : list A) (body : A → M unit) : M unit :=
  match l with
  | [] => ret tt
  | x :: l' => body x ;;; for_each l' body
  end.

(** Appending to the trace. *)
Definition log (evs : list event) (s : State) : State :=
  set_trace (trace s ++ evs) s.

Definition emit (ev : event) : M unit := modify (log [ev]).

(** An effect that returns nothing: the call is recorded, then the
    oracle says whether it raised. *)
Definition call (ev : event) (answer : list event → option exn) : M unit :=
  λ s, match answer (trace s) with
       | None => (Return tt, log [ev] s)
       | Some e => (Raise e, log [ev] s)
       end.

(** An effect that returns a value. *)
Definition call_value {A} (ev : event) (answer : list event → exn + A) : M A :=
  λ s, match answer (trace s) with
       | inr a => (Return a, log [ev] s)
       | inl e => (Raise e, log [ev] s)
       end.

Definition nl : string := String (Ascii.ascii_of_nat 10) "".

(** A line of output. *)
Definition line (text : string) : string := text ++ nl.

(** [print(a, b, ...)]: the arguments joined by spaces, then a newline. *)
Definition print (text : string) : M unit := emit (EvPrint (line text)).

(** [print(line, end='')] *)
Definition print_raw (text : string) : M unit := emit (EvPrint text).

(** The [instances] parameter of the methods: absent ([None]), one bare
    instance, or an iterable of instances. *)
Inductive subset :=
| AllTracked
| Single (i : Instance)
| Collection (l : list Instance).

Section Manager.

Variable W : World.

(** ** [__parse_instances] (lines 73-95) *)

Fixpoint check_instances (l : list Instance) : M unit :=
  match l with
  | [] => ret tt
  | i :: l' =>
      s <- get ;;
      if instance_in i (instances s) then check_instances l'
      else
        print "TypeError: Instances provided in parameters do not exist in InstanceManager object" ;;;
        raise TypeError
  end.

Definition parse_instances (a : subset) : M (list Instance) :=
  match a with
  | AllTracked => s <- get ;; ret (instances s)
  | Single i => check_instances [i] ;;; ret [i]
  | Collection l => check_instances l ;;; ret l
  end.

(** ** [close_instance_connections] (lines 329-346) *)

(** [self.ssh_clients[key]] *)
Definition lookup_client (key : string) : M client :=
  s <- get ;;
  match ssh_clients s !! key with
  | Some c => ret c
  | None => raise (KeyError key)
  end.

Definition close_one (suppress_warning : bool) (i : Instance) : M unit :=
  try_except
    (c <- lookup_client (id i) ;; emit (EvClose c))
    (λ e, match e with
          | KeyError _ =>
              if suppress_warning then ret tt
              else print ("Instance " ++ id i ++ " does not have an open SSH connection")
          | _ => raise e
          end).

Definition close_instance_connections (a : subset) (suppress_warning : bool) : M unit :=
  l <- parse_instances a ;;
  for_each l (close_one suppress_warning).

(** ** [terminate_instances], [start_instances], [stop_instances]
       (lines 257-327) *)

(** A call on the boto3 resource of an instance: it is recorded in the
    trace and may raise. boto3 also drops the cached attributes of the
    resource on [start], [stop] and [terminate] and reloads them at the
    next read; this cache is not part of [State], which keeps for a
    tracked instance its identifier and the address last known. What is
    proved of these calls concerns the calls made, the sessions and the
    identifiers, not an address read after them. *)
Definition instance_call (c : lifecycle) (i : Instance) : M unit :=
  call (EvInstance c (id i)) (λ t, w_instance W t c i).

Definition terminate_instances (a : subset) (wait_until_terminated : bool) : M unit :=
  l <- parse_instances a ;;
  for_each l (λ i,
    print ("Terminating instance " ++ id i) ;;;
    instance_call Terminate i) ;;;
  (if wait_until_terminated then
     for_each l (λ i,
       instance_call WaitUntilTerminated i ;;;
       print ("Instance " ++ id i ++ " terminated"))
   else ret tt) ;;;
  close_instance_connections (Collection l) true.

Definition start_instances (a : subset) (wait_until_running : bool) : M unit :=
  l <- parse_instances a ;;
  for_each l (λ i,
    print ("Starting instance " ++ id i) ;;;
    instance_call Start i) ;;;
  (if wait_until_running then
     for_each l (λ i,
       instance_call WaitUntilRunning i ;;;
       print ("Instance " ++ id i ++ " running"))
   else ret tt).

Definition stop_instances (a : subset) (wait_until_stopped : bool) : M unit :=
  l <- parse_instances a ;;
  for_each l (λ i,
    print ("Terminating instance " ++ id i) ;;;
    instance_call Stop i) ;;;
  (if wait_until_stopped then
     for_each l (λ i,
       instance_call WaitUntilStopped i ;;;
       print ("Instance " ++ id i ++ " stopped"))
   else ret tt) ;;;
  close_instance_connections (Collection l) true.

(** ** [connect_to_instances] (lines 196-254) *)

(** [paramiko.SSHClient()]: a new object, distinct from all earlier ones. *)
Definition new_client : M client :=
  λ s, (Return (next_client s), set_next_client (S (next_client s)) s).

(** [paramiko.RSAKey.from_private_key...]: reads the key file, or the
    environment when no file is configured. *)
Definition load_key : M unit :=
  λ s, match w_load_key W (trace s) (key_file (config s)) with
       | None => (Return tt, s)
       | Some e => (Raise e, s)
       end.

(** Lines 226-227. *)
Definition close_previous (i : Instance) : M unit :=
  s <- get ;;
  match ssh_clients s !! id i with
  | Some c => emit (EvClose c)
  | None => ret tt
  end.

(** Line 230. *)
Definition store_client (i : Instance) (c : client) : M unit :=
  modify (λ s, set_ssh_clients (<[id i := c]> (ssh_clients s)) s).

(** The body of the [try] (lines 210-230). *)
Definition attempt (i : Instance) (password : option string) : M unit :=
  c <- new_client ;;
  load_key ;;;
  s <- get ;;
  call (EvConnect c (public_ip_address i) (username (config s)) password)
       (λ t, w_connect W t i) ;;;
  close_previous i ;;;
  store_client i c.

(** The diagnostic of each [except] clause; [None] for an exception that
    no clause catches. *)
Definition retry_message (e : exn) (k : Z) (i : Instance) : option string :=
  match e with
  | TimeoutError =>
      Some ("Connection attempt #" ++ pretty k ++ " for IP address "
            ++ public_ip_address i ++ " timed out. Trying again...")
  | NoValidConnectionsError =>
      Some ("Connection attempt #" ++ pretty k ++ " for IP address "
            ++ public_ip_address i ++ " failed. Trying again...")
  | AuthenticationException =>
      Some ("Connection attempt #" ++ pretty k ++ " for IP address "
            ++ public_ip_address i ++ " failed authentication. Trying again...")
  | _ => None
  end.

(** The inner [for] over the attempt numbers [ks]; the [try] answers
    [true] when it reached [break]. *)
Fixpoint connect_attempts (i : Instance) (password : option string)
    (max_attempts : Z) (ks : list Z) : M unit :=
  match ks with
  | [] => ret tt
  | k :: ks' =>
      connected <-
        try_except
          (attempt i password ;;; ret true)
          (λ e, match retry_message e k i with
                | Some text =>
                    if (k =? max_attempts)%Z then raise e
                    else print text ;;; emit (EvSleep 10) ;;; ret false
                | None => raise e
                end) ;;
      if connected : bool then ret tt
      else connect_attempts i password max_attempts ks'
  end.

(** [range(1, max_attempts + 1)] *)
Definition attempt_numbers (max_attempts : Z) : list Z := seqZ 1 max_attempts.

Definition connect_instance (password : option string) (max_attempts : Z)
    (i : Instance) : M unit :=
  connect_attempts i password max_attempts (attempt_numbers max_attempts).

Definition connect_to_instances (a : subset) (max_attempts : Z)
    (password : option string) : M unit :=
  l <- parse_instances a ;;
  for_each l (connect_instance password max_attempts).

(** ** [upload_file_to_instance] (lines 348-370) *)

(** [p.endswith('/')] *)
Definition ends_with_sep (p : string) : bool := String.prefix "/" (String.rev p).

(** [os.path.join(a, b)] on a POSIX host. *)
Definition path_join (a b : string) : string :=
  if String.prefix "/" b then b
  else if (String.eqb a "" || ends_with_sep a)%bool then a ++ b
  else a ++ "/" ++ b.

Definition upload_one (source_file destination_file : string) (i : Instance) : M unit :=
  c <- lookup_client (id i) ;;
  call (EvOpenSftp c) (λ t, w_open_sftp W t c) ;;;
  s <- get ;;
  let target := path_join (home_directory (config s)) destination_file in
  call (EvSftpPut c source_file target)
       (λ t, w_sftp_put W t c source_file target) ;;;
  emit (EvSftpClose c).

Definition upload_file_to_instance (source_file destination_file : string)
    (a : subset) : M unit :=
  l <- parse_instances a ;;
  for_each l (upload_one source_file destination_file).

(** ** [execute_command] (lines 396-426) *)

Definition execute_one (command : string) (i : Instance) : M unit :=
  c <- lookup_client (id i) ;;
  r <- call_value (EvExecCommand c command) (λ t, w_exec W t c command) ;;
  if (exit_status r =? 0)%Z then for_each (stdout_lines r) print_raw
  else for_each (stderr_lines r) print_raw.

Definition execute_command (command : string) (a : subset) : M unit :=
  print ("Executing: " ++ command) ;;;
  l <- parse_instances a ;;
  for_each l (execute_one command).

(** ** [create_security_group] (lines 97-137) *)

(** [needle in hay] on strings. *)
Fixpoint contains (needle hay : string) : bool :=
  (String.prefix needle hay
   || match hay with
      | "" => false
      | String _ rest => contains needle rest
      end)%bool.

Definition group_name : string := "IMPAQ_HPC_TM".

Definition create_security_group : M unit :=
  try_except
    (g <- call_value
            (EvCreateSecurityGroup group_name "Used for HPC topic modeling")
            (w_create_group W) ;;
     call (EvAuthorizeIngress g) (λ t, w_authorize_ingress W t g) ;;;
     modify (set_security_group_ids (Some [g])) ;;;
     modify (set_security_group_created true))
    (λ e, match e with
          | ClientError message =>
              print "Security group already created" ;;;
              if contains "InvalidGroup.Duplicate" message then
                found <- call_value (EvDescribeSecurityGroups group_name)
                                    (w_describe_groups W) ;;
                match found with
                | g :: _ => modify (set_security_group_ids (Some [g]))
                | [] => raise IndexError
                end
              else raise e
          | _ => raise e
          end).

(** ** [delete_security_group] (lines 139-155) *)

Definition delete_one (g : string) : M unit :=
  try_except
    (s <- get ;;
     call (EvDeleteSecurityGroup (environment_configuration (config s)) g)
          (λ t, w_delete_group W t g) ;;;
     print ("Security group " ++ g ++ " deleted"))
    (λ e, match e with
          | ClientError message => print message
          | _ => raise e
          end).

(** Iterating over [None] is a [TypeError]. *)
Definition delete_security_group : M unit :=
  s <- get ;;
  match security_group_ids s with
  | Some groups => for_each groups delete_one
  | None => raise TypeError
  end.

(** ** [cleanup] (lines 62-71) *)

Definition cleanup : M unit :=
  s <- get ;;
  terminate_instances AllTracked (security_group_created s) ;;;
  s' <- get ;;
  if security_group_created s' then delete_security_group else ret tt.

(** ** [download_file_from_url] (lines 428-440) *)

Definition download_file_from_url (url : string) (a : subset) : M unit :=
  execute_command ("wget " ++ url) a.

End Manager.

(** * Specification vocabulary *)

(** ** Subsets *)

(** The instances the caller named. *)
Definition given (a : subset) : list Instance :=
  match a with
  | AllTracked => []
  | Single i => [i]
  | Collection l => l
  end.

(** Some named instance is not tracked by the manager. *)
Definition untracked (a : subset) (s : State) : bool :=
  existsb (λ i, negb (instance_in i (instances s))) (given a).

(** The instances a method works on once the subset is accepted. *)
Definition selected (a : subset) (s : State) : list Instance :=
  match a with
  | AllTracked => instances s
  | Single i => [i]
  | Collection l => l
  end.

Definition type_error_text : string :=
  line "TypeError: Instances provided in parameters do not exist in InstanceManager object".

(** ** What the loops leave in the trace *)

(** [close_instance_connections] over [l] with session mapping [m]: a
    close for each instance that has a session, a warning for each one
    that has none unless warnings are suppressed. *)
Definition close_events (suppress_warning : bool) (m : gmap string client)
    (l : list Instance) : list event :=
  flat_map (λ i, match m !! id i with
                 | Some c => [EvClose c]
                 | None =>
                     if suppress_warning then []
                     else [EvPrint (line ("Instance " ++ id i
                             ++ " does not have an open SSH connection"))]
                 end) l.

(** The first loop of a lifecycle method: an announcement, then the call. *)
Definition request_events (announce : string) (c : lifecycle)
    (l : list Instance) : list event :=
  flat_map (λ i, [EvPrint (line (announce ++ id i)); EvInstance c (id i)]) l.

(** The second loop: the blocking call, then the completion notice. *)
Definition wait_events (c : lifecycle) (reached : string)
    (l : list Instance) : list event :=
  flat_map (λ i, [EvInstance c (id i);
                  EvPrint (line ("Instance " ++ id i ++ reached))]) l.

Definition is_close (ev : event) : bool :=
  match ev with EvClose _ => true | _ => false end.


(** The rule sets whose deletion was requested, in order. *)
Definition deleted_groups (evs : list event) : list string :=
  omap (λ ev, match ev with
              | EvDeleteSecurityGroup _ g => Some g
              | _ => None
              end) evs.

(** ** Connection attempts *)



Definition is_sleep (ev : event) : bool :=
  match ev with EvSleep _ => true | _ => false end.

(** The close of the session that [m] holds for [i], if any. *)
Definition close_previous_events (m : gmap string client) (i : Instance) : list event :=
  match m !! id i with
  | Some old => [EvClose old]
  | None => []
  end.


(** The state after a successful attempt with client [c], the events
    [before] having preceded the connection: the previous session of the
    instance is closed, then [c] is stored under the identifier. *)
Definition connected (i : Instance) (pw : option string) (c : client)
    (before : list event) (s : State) : State :=
  set_ssh_clients (<[id i := c]> (ssh_clients s))
    (set_next_client (S c)
       (log (before
             ++ EvConnect c (public_ip_address i) (username (config s)) pw
                :: close_previous_events (ssh_clients s) i) s)).



(** ** Remote commands and rule sets *)

(** The lines [execute_command] prints for one answer: standard output
    when the exit status is zero, standard error otherwise. *)
Definition output_events (r : exec_result) : list event :=
  map EvPrint (if (exit_status r =? 0)%Z then stdout_lines r else stderr_lines r).

Definition create_event : event :=
  EvCreateSecurityGroup group_name "Used for HPC topic modeling".

Definition already_created_event : event :=
  EvPrint (line "Security group already created").

Definition is_create (ev : event) : bool :=
  match ev with EvCreateSecurityGroup _ _ => true | _ => false end.

(** ** Sample worlds and managers *)

(** A world where every external call succeeds. *)

Definition quiet : World :=
  {| w_instance := λ _ _ _, None;
     w_load_key := λ _ _, None;
     w_connect := λ _ _, None;
     w_exec := λ _ _ _, inr {| exit_status := 0; stdout_lines := [line "ok"];
                               stderr_lines := [] |};
     w_open_sftp := λ _ _, None;
     w_sftp_put := λ _ _ _ _, None;
     w_create_group := λ _, inr "sg-1";
     w_authorize_ingress := λ _ _, None;
     w_describe_groups := λ _, inr ["sg-1"];
     w_delete_group := λ _ _, None |}.

Definition sample_config : Config :=
  {| key_file := Some "key.pem"; username := "ubuntu";
     home_directory := "/home/ubuntu/"; environment_configuration := false |}.

Definition i1 : Instance := {| id := "i-1"; public_ip_address := "10.0.0.1" |}.
Definition i2 : Instance := {| id := "i-2"; public_ip_address := "10.0.0.2" |}.

(** An instance of some other manager. *)
Definition stranger : Instance := {| id := "i-9"; public_ip_address := "10.0.0.9" |}.

(** The manager built on a rule set of the caller, once
    [create_instances] has stored the two instances. *)
Definition two_tracked : State :=
  set_instances [i1; i2] (init sample_config (Some ["sg-0"])).

(** The same manager after [connect_to_instances()]. *)
Definition two_connected : State :=
  (connect_to_instances quiet AllTracked 10 None two_tracked).2.

(** The same manager once it has created its own rule set. *)
Definition two_owned : State :=
  (create_security_group quiet two_connected).2.


(** A provider that creates the rule set once and reports a duplicate
    afterwards. *)
Definition one_group_provider : World :=
  {| w_instance := λ _ _ _, None;
     w_load_key := λ _ _, None;
     w_connect := λ _ _, None;
     w_exec := λ _ _ _, inr {| exit_status := 2; stdout_lines := [];
                               stderr_lines := [line "ls: no such file"] |};
     w_open_sftp := λ _ _, None;
     w_sftp_put := λ _ _ _ _, None;
     w_create_group := λ t,
       if existsb is_create t
       then inl (ClientError "An error occurred (InvalidGroup.Duplicate) when calling the CreateSecurityGroup operation")
       else inr "sg-7";
     w_authorize_ingress := λ _ _, None;
     w_describe_groups := λ t, if existsb is_create t then inr ["sg-7"] else inr [];
     w_delete_group := λ _ _, None |}.
(** * The rest of the class: further vocabulary *)

(** A computation that, however it ends, has only appended to the trace:
    the tracked instances, the sessions, the rule-set identifiers, the
    ownership flag and the configuration are the ones it started with. *)
Definition only_logs {A} (m : M A) : Prop :=
  ∀ s r s', m s = (r, s') → ∃ evs, s' = log evs s.

(** A computation that, however it ends, keeps what the manager tracks:
    the identifiers of the tracked instances, in their order, the
    sessions, the rule-set identifiers and the ownership flag; the trace
    is only appended to. *)
Definition keeps_tracking {A} (m : M A) : Prop :=
  ∀ s r s', m s = (r, s') →
    id <$> instances s' = id <$> instances s
    ∧ ssh_clients s' = ssh_clients s
    ∧ security_group_ids s' = security_group_ids s
    ∧ security_group_created s' = security_group_created s
    ∧ ∃ evs, trace s' = (trace s ++ evs)%list.

(** A world where the provider refuses every call on the second
    instance. *)
Definition i2_refused : World :=
  {| w_instance := λ _ _ i,
       if String.eqb (id i) "i-2" then Some (ClientError "IncorrectInstanceState")
       else None;
     w_load_key := λ _ _, None;
     w_connect := λ _ _, None;
     w_exec := λ _ _ _, inr {| exit_status := 0; stdout_lines := [line "ok"];
                               stderr_lines := [] |};
     w_open_sftp := λ _ _, None;
     w_sftp_put := λ _ _ _ _, None;
     w_create_group := λ _, inr "sg-1";
     w_authorize_ingress := λ _ _, None;
     w_describe_groups := λ _, inr ["sg-1"];
     w_delete_group := λ _ _, None |}.

(** The hosts of the connections requested, in order. *)
Definition connect_hosts (evs : list event) : list string :=
  omap (λ ev, match ev with
              | EvConnect _ host _ _ => Some host
              | _ => None
              end) evs.



(** A world where connecting fails in a way no [except] clause names,
    and so do remote commands and transfers. *)
Definition broken_shell : World :=
  {| w_instance := λ _ _ _, None;
     w_load_key := λ _ _, None;
     w_connect := λ _ _, Some (OtherError "SSHException");
     w_exec := λ _ _ _, inl (OtherError "SSHException");
     w_open_sftp := λ _ _, None;
     w_sftp_put := λ _ _ _ _, Some (OtherError "IOError");
     w_create_group := λ _, inr "sg-1";
     w_authorize_ingress := λ _ _, Some (ClientError "InvalidPermission.Malformed");
     w_describe_groups := λ _, inr ["sg-1"];
     w_delete_group := λ _ g, Some (ClientError ("DependencyViolation " ++ g)) |}.

(** The clients on which a command was run, in order. *)
Definition exec_clients (evs : list event) : list client :=
  omap (λ ev, match ev with
              | EvExecCommand c _ => Some c
              | _ => None
              end) evs.

(** The commands that were run, in order. *)
Definition exec_commands (evs : list event) : list string :=
  omap (λ ev, match ev with
              | EvExecCommand _ command => Some command
              | _ => None
              end) evs.

(** An upload to each instance of [l] that has a session in [m]: the
    channel is opened, the file is put under the home directory, the
    channel is closed. *)
Definition upload_events (home source_file destination_file : string)
    (m : gmap string client) (l : list Instance) : list event :=
  flat_map (λ i, match m !! id i with
                 | Some c =>
                     [EvOpenSftp c;
                      EvSftpPut c source_file (path_join home destination_file);
                      EvSftpClose c]
                 | None => []
                 end) l.

(** The manager says it owns a rule set only when it knows exactly one
    identifier. *)
Definition owned_group_known (s : State) : Prop :=
  security_group_created s = true → ∃ g, security_group_ids s = Some [g].

(** * Creating and loading instances, downloading files

    [create_instances], [load_instances] and [download_file_from_instance]
    make three calls that the trace has no event for: the creation
    request, the refresh of an instance and the [get] of a file channel.
    They are kept in a log of their own, each with the trace at the
    moment of the call, so that the order of all calls is still known. *)

(** The constructor arguments of the instance template. *)
Record Template := {
  key_name : string;
  instance_num : Z;
  instance_type : string;
  image_id : string
}.

Inductive request :=
| ReqCreateInstances (image type : string) (max_count min_count : Z)
    (groups : option (list string)) (key : string)
| ReqLoad (instance_id : string)
| ReqSftpGet (c : client) (source destination : string).

Definition request_log : Type := list (list event * request).

(** The answers to these calls; each oracle sees the trace and the
    requests made so far. [c_load] answers the refreshed public address. *)
Record Cloud := {
  c_create_instances : list event → request_log → exn + list Instance;
  c_load : list event → request_log → Instance → exn + string;
  c_sftp_get : list event → request_log → client → string → string → option exn
}.

(** The manager with its template and the log of these requests. *)
Record Fleet := {
  manager : State;
  template : Template;
  requests : request_log
}.

Definition set_manager (s : State) (f : Fleet) : Fleet :=
  {| manager := s; template := template f; requests := requests f |}.

Definition add_request (q : request) (f : Fleet) : Fleet :=
  {| manager := manager f; template := template f;
     requests := (requests f ++ [(trace (manager f), q)])%list |}.

(** Method bodies over a [Fleet]. *)
Definition F (A : Type) : Type := Fleet → outcome A * Fleet.

Definition fret {A} (a : A) : F A := λ f, (Return a, f).

Definition fbind {A B} (m : F A) (k : A → F B) : F B :=
  λ f, match m f with
       | (Return a, f') => k a f'
       | (Raise e, f') => (Raise e, f')
       end.

Definition fraise {A} (e : exn) : F A := λ f, (Raise e, f).

Definition fget : F Fleet := λ f, (Return f, f).

Definition ftry {A} (body : F A) (handler : exn → F A) : F A :=
  λ f, match body f with
       | (Return a, f') => (Return a, f')
       | (Raise e, f') => handler e f'
       end.

(** A method of the manager run inside a fleet. *)
Definition lift {A} (m : M A) : F A :=
  λ f, let (r, s') := m (manager f) in (r, set_manager s' f).

(** A request that answers a value, and one that answers nothing. *)
Definition ask {A} (q : request)
    (answer : list event → request_log → exn + A) : F A :=
  λ f, match answer (trace (manager f)) (requests f) with
       | inr a => (Return a, add_request q f)
       | inl e => (Raise e, add_request q f)
       end.

Definition tell (q : request)
    (answer : list event → request_log → option exn) : F unit :=
  λ f, match answer (trace (manager f)) (requests f) with
       | None => (Return tt, add_request q f)
       | Some e => (Raise e, add_request q f)
       end.

(** [instance.load()]: the attributes of the tracked object at rank [k]
    are refreshed. *)
Definition refresh (k : nat) (i : Instance) (address : string) (f : Fleet) : Fleet :=
  set_manager
    (set_instances
       (<[k := {| id := id i; public_ip_address := address |}]>
          (instances (manager f)))
       (manager f)) f.

Section Provisioning.

Variable W : World.
Variable C : Cloud.

Declare Scope fleet_scope.
Notation "x <- m ;; k" := (fbind m (λ x, k))
  (at level 100, m at next level, right associativity) : fleet_scope.
Notation "m ;;; k" := (fbind m (λ _, k))
  (at level 100, right associativity) : fleet_scope.
Local Open Scope fleet_scope.

(** ** [load_instances] (lines 185-194) *)

(** The loop over [self.instances], [k] being the rank of the head of
    [l] in the tracked collection. *)
Fixpoint load_from (k : nat) (l : list Instance) : F unit :=
  match l with
  | [] => fret tt
  | i :: l' =>
      lift (instance_call W WaitUntilRunning i) ;;;
      address <- ask (ReqLoad (id i)) (λ t q, c_load C t q i) ;;
      (λ f, (Return tt, refresh k i address f)) ;;;
      load_from (S k) l'
  end.

Definition load_instances : F unit :=
  f <- fget ;;
  load_from 0 (instances (manager f)).

(** ** [create_instances] (lines 157-183) *)

Definition create_instances (wait_for_running : bool) : F (list Instance) :=
  f <- fget ;;
  match security_group_ids (manager f) with
  | None => lift (create_security_group W)
  | Some _ => fret tt
  end ;;;
  f <- fget ;;
  created <- ask (ReqCreateInstances (image_id (template f))
                    (instance_type (template f))
                    (instance_num (template f)) (instance_num (template f))
                    (security_group_ids (manager f)) (key_name (template f)))
                 (c_create_instances C) ;;
  (λ f, (Return tt, set_manager (set_instances created (manager f)) f)) ;;;
  (if wait_for_running then load_instances else fret tt) ;;;
  f <- fget ;;
  fret (instances (manager f)).

(** ** [download_file_from_instance] (lines 372-394) *)

Definition download_file_from_instance (source_file destination_file : string)
    (i : Instance) : F unit :=
  ftry
    (c <- lift (lookup_client (id i)) ;;
     lift (call (EvOpenSftp c) (λ t, w_open_sftp W t c)) ;;;
     tell (ReqSftpGet c source_file destination_file)
          (λ t q, c_sftp_get C t q c source_file destination_file) ;;;
     lift (emit (EvSftpClose c)))
    (λ e, match e with
          | KeyError _ =>
              lift (print "KeyError: That instance does not have an open connection") ;;;
              fraise e
          | _ => fraise e
          end).

End Provisioning.

(** The template of the samples and a cloud that creates two instances,
    still without an address, and answers every refresh and transfer. *)
Definition sample_template : Template :=
  {| key_name := "hpc-key"; instance_num := 2; instance_type := "c5.large";
     image_id := "ami-0a47106e391391252" |}.

Definition pending (name : string) : Instance :=
  {| id := name; public_ip_address := "None" |}.

Definition two_created : Cloud :=
  {| c_create_instances := λ _ _, inr [pending "i-3"; pending "i-4"];
     c_load := λ _ _ i, inr ("10.0.1." ++ id i);
     c_sftp_get := λ _ _ _ _ _, None |}.

(** A cloud out of capacity, whose transfers fail. *)
Definition no_capacity : Cloud :=
  {| c_create_instances := λ _ _, inl (ClientError "InsufficientInstanceCapacity");
     c_load := λ _ _ _, inl (ClientError "InvalidInstanceID.NotFound");
     c_sftp_get := λ _ _ _ _ _, Some (OtherError "IOError") |}.

(** The connected manager, seen as a fleet with no request made yet. *)
Definition connected_fleet : Fleet :=
  {| manager := two_connected; template := sample_template; requests := [] |}.

(** A new manager without a rule set of its own or of the caller. *)
Definition new_fleet : Fleet :=
  {| manager := init sample_config None; template := sample_template;
     requests := [] |}.

(** The requests [load_instances] makes over [l] from trace [t]: each
    instance is waited for, then loaded. *)
Fixpoint load_requests (t : list event) (l : list Instance) : request_log :=
  match l with
  | [] => []
  | i :: l' =>
      let t' := (t ++ [EvInstance WaitUntilRunning (id i)])%list in
      (t', ReqLoad (id i)) :: load_requests t' l'
  end.

(** The waits of [load_instances] over [l]. *)
Definition wait_calls (l : list Instance) : list event :=
  (λ i, EvInstance WaitUntilRunning (id i)) <$> l.

(** The creation request of a fleet. *)
Definition creation_request (f : Fleet) : request :=
  ReqCreateInstances (image_id (template f)) (instance_type (template f))
    (instance_num (template f)) (instance_num (template f))
    (security_group_ids (manager f)) (key_name (template f)).

Definition no_connection_text : string :=
  line "KeyError: That instance does not have an open connection".

(** * Properties *)

(** Unfolding the monad down to functions on states. *)
Ltac monad :=
  unfold print, print_raw, emit, modify, get, raise, ret, bind, try_except,
    call, call_value in *;
  simpl in *.

(** ** The trace and the state *)

Lemma log_nil (s : State) : log [] s = s.
Proof. destruct s; unfold log, set_trace; simpl. by rewrite app_nil_r. Qed.

Lemma log_log (a b : list event) (s : State) : log b (log a s) = log (a ++ b) s.
Proof. unfold log, set_trace; simpl. by rewrite app_assoc. Qed.

(** ** Subset validation *)

Lemma check_instances_spec (l : list Instance) (s : State) :
  check_instances l s =
  if existsb (λ i, negb (instance_in i (instances s))) l
  then (Raise TypeError, log [EvPrint type_error_text] s)
  else (Return tt, s).
Proof.
  induction l as [|i l IH]; simpl; [done|].
  monad. destruct (instance_in i (instances s)); simpl; [apply IH | done].
Qed.

Lemma parse_instances_spec (a : subset) (s : State) :
  parse_instances a s =
  if untracked a s
  then (Raise TypeError, log [EvPrint type_error_text] s)
  else (Return (selected a s), s).
Proof.
  destruct a as [|i|l]; unfold parse_instances, untracked; simpl given.
  - done.
  - unfold bind. rewrite check_instances_spec.
    by destruct (existsb _ _).
  - unfold bind. rewrite check_instances_spec.
    by destruct (existsb _ _).
Qed.

Lemma instance_in_self (i : Instance) (l : list Instance) :
  i ∈ l → instance_in i l = true.
Proof.
  intros Hi. unfold instance_in. apply existsb_exists. exists i. split.
  - by apply list_elem_of_In.
  - unfold instance_eqb. apply String.eqb_refl.
Qed.

(** The tracked collection itself is always accepted. *)
Lemma tracked_accepted (s : State) : untracked (Collection (instances s)) s = false.
Proof.
  unfold untracked; simpl.
  apply not_true_is_false. intros H. apply existsb_exists in H as (i & Hi & Hn).
  rewrite instance_in_self in Hn; [done | by apply list_elem_of_In].
Qed.

(** Once accepted, the selected list is accepted again. *)
Lemma selected_accepted (a : subset) (s : State) :
  untracked a s = false → untracked (Collection (selected a s)) s = false.
Proof.
  destruct a as [|i|l]; simpl; [intros _; apply tracked_accepted | done | done].
Qed.

(** ** Loops *)

(** A loop whose body, when it returns, has only appended to the trace. *)
Lemma for_each_log {A} (body : A → M unit) (ev : A → list event) (l : list A) :
  (∀ x s s', body x s = (Return tt, s') → s' = log (ev x) s) →
  ∀ s s', for_each l body s = (Return tt, s') → s' = log (flat_map ev l) s.
Proof.
  intros Hbody. induction l as [|x l IH]; intros s s' H; simpl in *.
  - monad. inversion H. by rewrite log_nil.
  - unfold bind in H. destruct (body x s) as [[[]|e] s1] eqn:Hx; [|done].
    apply Hbody in Hx as ->. apply IH in H as ->. by rewrite log_log.
Qed.

Lemma for_each_app {A} (body : A → M unit) (l1 l2 : list A) (s : State) :
  for_each (l1 ++ l2) body s =
  match for_each l1 body s with
  | (Return _, s1) => for_each l2 body s1
  | (Raise e, s1) => (Raise e, s1)
  end.
Proof.
  revert s. induction l1 as [|x l1 IH]; intros s; simpl; [done|].
  unfold bind. destruct (body x s) as [[[]|e] s1]; [apply IH | done].
Qed.

(** ** [close_instance_connections] *)

Lemma close_one_spec (suppress : bool) (i : Instance) (s : State) :
  close_one suppress i s = (Return tt, log (close_events suppress (ssh_clients s) [i]) s).
Proof.
  unfold close_one, lookup_client, close_events. monad.
  destruct (ssh_clients s !! id i) as [c|]; simpl; [done|].
  destruct suppress; simpl; [by rewrite log_nil | done].
Qed.

Lemma close_loop_spec (suppress : bool) (l : list Instance) (s : State) :
  for_each l (close_one suppress) s =
  (Return tt, log (close_events suppress (ssh_clients s) l) s).
Proof.
  revert s. induction l as [|i l IH]; intros s; simpl.
  - by rewrite log_nil.
  - unfold bind. rewrite close_one_spec, IH, log_log. simpl.
    by rewrite app_nil_r.
Qed.

Lemma close_instance_connections_spec (a : subset) (suppress : bool) (s : State) :
  close_instance_connections a suppress s =
  if untracked a s
  then (Raise TypeError, log [EvPrint type_error_text] s)
  else (Return tt, log (close_events suppress (ssh_clients s) (selected a s)) s).
Proof.
  unfold close_instance_connections, bind. rewrite parse_instances_spec.
  destruct (untracked a s); [done | apply close_loop_spec].
Qed.

Lemma close_events_suppressed (m : gmap string client) (l : list Instance) (ev : event) :
  ev ∈ close_events true m l → ∃ c, ev = EvClose c.
Proof.
  unfold close_events. rewrite list_elem_of_In, in_flat_map.
  intros (i & _ & Hev). destruct (m !! id i) as [c|]; simpl in Hev; [|done].
  destruct Hev as [<-|[]]. by exists c.
Qed.

Lemma close_events_session (suppress : bool) (m : gmap string client)
    (l : list Instance) (i : Instance) (c : client) :
  i ∈ l → m !! id i = Some c → EvClose c ∈ close_events suppress m l.
Proof.
  intros Hi Hc. unfold close_events. rewrite list_elem_of_In, in_flat_map.
  exists i. split; [by apply list_elem_of_In|]. rewrite Hc. by left.
Qed.

(** ** Lifecycle methods *)

Section Lifecycle.

Context (W : World).

Lemma request_loop_log (announce : string) (c : lifecycle) (l : list Instance)
    (s s' : State) :
  for_each l (λ i, print (announce ++ id i) ;;; instance_call W c i) s = (Return tt, s') →
  s' = log (request_events announce c l) s.
Proof.
  apply for_each_log. clear. intros i s s'. unfold instance_call. monad.
  destruct (w_instance W _ c i); [done|]. intros [= <-]. by rewrite log_log.
Qed.

Lemma wait_loop_log (c : lifecycle) (reached : string) (l : list Instance)
    (s s' : State) :
  for_each l (λ i, instance_call W c i ;;; print ("Instance " ++ id i ++ reached)) s
    = (Return tt, s') →
  s' = log (wait_events c reached l) s.
Proof.
  apply for_each_log. clear. intros i s s'. unfold instance_call. monad.
  destruct (w_instance W _ c i); [done|]. intros [= <-]. by rewrite log_log.
Qed.

(** What [terminate_instances] has done when it returns. *)
Lemma terminate_instances_returns (a : subset) (wait : bool) (s s' : State) :
  terminate_instances W a wait s = (Return tt, s') →
  untracked a s = false ∧
  s' = log (request_events "Terminating instance " Terminate (selected a s)
            ++ (if wait then wait_events WaitUntilTerminated " terminated" (selected a s)
                else [])
            ++ close_events true (ssh_clients s) (selected a s)) s.
Proof.
  unfold terminate_instances, bind at 1. rewrite parse_instances_spec.
  destruct (untracked a s) eqn:Ha; [done|]. intros H. split; [done|].
  unfold bind in H.
  destruct (for_each _ _ s) as [[[]|e] s1] eqn:H1; [|done].
  apply request_loop_log in H1 as ->.
  destruct wait.
  - destruct (for_each _ _ (log _ s)) as [[[]|e] s2] eqn:H2; [|done].
    apply wait_loop_log in H2 as ->.
    rewrite close_instance_connections_spec in H.
    rewrite log_log in H. simpl selected in H.
    change (untracked (Collection (selected a s)) (log ?e s))
      with (untracked (Collection (selected a s)) s) in H.
    rewrite selected_accepted in H by done.
    injection H as <-. by rewrite log_log, <- app_assoc.
  - simpl in H. rewrite close_instance_connections_spec in H.
    change (untracked (Collection (selected a s)) (log ?e s))
      with (untracked (Collection (selected a s)) s) in H.
    rewrite selected_accepted in H by done.
    injection H as <-. by rewrite log_log.
Qed.

End Lifecycle.

(** ** Sessions after [terminate_instances] *)

Section Terminate.

Context (W : World).

(** C1, as amended. When [terminate_instances] returns, whatever the
    subset, the prior mapping and the wait flag: the session mapping is
    the one it was before the call, so the entry of every instance of the
    subset is still there; the call ended by closing the session of every
    instance of the subset that has one, and only closes were issued then
    (no warning for an instance without a session). *)
Theorem terminate_instances_closes_keeps_entries
    (a : subset) (wait_until_terminated : bool) (s s' : State) :
  terminate_instances W a wait_until_terminated s = (Return tt, s') →
  ssh_clients s' = ssh_clients s
  ∧ (∃ before,
       trace s' = (trace s ++ before
                   ++ close_events true (ssh_clients s) (selected a s))%list)
  ∧ (∀ i c, i ∈ selected a s → ssh_clients s !! id i = Some c →
       EvClose c ∈ close_events true (ssh_clients s) (selected a s))
  ∧ (∀ ev, ev ∈ close_events true (ssh_clients s) (selected a s) →
       is_close ev = true).
Proof.
  intros H. apply terminate_instances_returns in H as [_ ->].
  split; [done|]. split; [|split].
  - eexists. cbn [trace log set_trace]. f_equal. apply app_assoc.
  - intros i c. apply close_events_session.
  - intros ev Hev. by apply close_events_suppressed in Hev as [c ->].
Qed.

End Terminate.

(** The first instance terminated, with waiting, after both were connected. *)
Lemma terminate_instances_closes_keeps_entries_witness :
  ssh_clients (terminate_instances quiet (Single i1) true two_connected).2
    = ssh_clients two_connected
  ∧ (∃ before,
       trace (terminate_instances quiet (Single i1) true two_connected).2
       = (trace two_connected ++ before
          ++ close_events true (ssh_clients two_connected)
               (selected (Single i1) two_connected))%list)
  ∧ (∀ i c, i ∈ selected (Single i1) two_connected →
       ssh_clients two_connected !! id i = Some c →
       EvClose c ∈ close_events true (ssh_clients two_connected)
                     (selected (Single i1) two_connected))
  ∧ (∀ ev, ev ∈ close_events true (ssh_clients two_connected)
                  (selected (Single i1) two_connected) →
       is_close ev = true).
Proof.
  apply (terminate_instances_closes_keeps_entries quiet (Single i1) true two_connected).
  vm_compute. reflexivity.
Defined.

(** C1, as stated, fails: after [terminate_instances(i1)] the mapping
    still has an entry under the identifier of [i1]. *)
Lemma terminate_instances_entry_remains :
  ∃ s', terminate_instances quiet (Single i1) false two_connected = (Return tt, s')
        ∧ instance_in i1 (instances two_connected) = true
        ∧ ssh_clients s' !! id i1 = Some 0%nat.
Proof. eexists. split; [reflexivity|]. split; reflexivity. Qed.

(** ** Subsets that are refused, subsets that are empty *)

Section Subsets.

Context (W : World).

(** C3. A subset naming an instance the manager does not track makes
    each of the seven subset-taking methods raise the validation error
    ([TypeError] in the source) with the state untouched but for the
    printed text: no lifecycle call, no session change, no remote
    operation. A bare instance is the one-element collection, and no
    subset is the tracked collection. *)
Theorem untracked_instance_rejected
    (a : subset) (s : State) (max_attempts : Z) (password : option string)
    (flag : bool) (command source_file destination_file : string)
    (i : Instance) :
  untracked a s = true →
  let refused := (Raise TypeError, log [EvPrint type_error_text] s) in
  connect_to_instances W a max_attempts password s = refused
  ∧ close_instance_connections a flag s = refused
  ∧ start_instances W a flag s = refused
  ∧ stop_instances W a flag s = refused
  ∧ terminate_instances W a flag s = refused
  ∧ upload_file_to_instance W source_file destination_file a s = refused
  ∧ execute_command W command a s
    = (Raise TypeError,
       log [EvPrint (line ("Executing: " ++ command)); EvPrint type_error_text] s)
  ∧ parse_instances (Single i) = parse_instances (Collection [i])
  ∧ parse_instances AllTracked s = (Return (instances s), s).
Proof.
  intros Ha refused. subst refused.
  assert (Hparse : parse_instances a s
                   = (Raise TypeError, log [EvPrint type_error_text] s))
    by (by rewrite parse_instances_spec, Ha).
  unfold connect_to_instances, close_instance_connections, start_instances,
    stop_instances, terminate_instances, upload_file_to_instance, execute_command.
  repeat split; try (unfold bind at 1; by rewrite Hparse).
  unfold print, emit, modify, bind. simpl.
  rewrite parse_instances_spec.
  change (untracked a (log ?e s)) with (untracked a s). rewrite Ha.
  by rewrite log_log.
Qed.

(** C9. An empty collection is accepted by each of the seven methods:
    they return without a lifecycle call, a session change or a remote
    operation ([execute_command] has printed its announcement); the empty
    collection selects no instance, where an absent subset selects every
    tracked one. *)
Theorem empty_subset_is_noop
    (s : State) (max_attempts : Z) (password : option string)
    (flag : bool) (command source_file destination_file : string) :
  connect_to_instances W (Collection []) max_attempts password s = (Return tt, s)
  ∧ close_instance_connections (Collection []) flag s = (Return tt, s)
  ∧ start_instances W (Collection []) flag s = (Return tt, s)
  ∧ stop_instances W (Collection []) flag s = (Return tt, s)
  ∧ terminate_instances W (Collection []) flag s = (Return tt, s)
  ∧ upload_file_to_instance W source_file destination_file (Collection []) s
    = (Return tt, s)
  ∧ execute_command W command (Collection []) s
    = (Return tt, log [EvPrint (line ("Executing: " ++ command))] s)
  ∧ parse_instances (Collection []) s = (Return [], s)
  ∧ parse_instances AllTracked s = (Return (instances s), s).
Proof. destruct flag; repeat split. Qed.

End Subsets.

(** A collection naming a tracked instance and a stranger. *)
Lemma untracked_instance_rejected_witness :
  let refused := (Raise TypeError, log [EvPrint type_error_text] two_connected) in
  connect_to_instances quiet (Collection [i1; stranger]) 10 None two_connected = refused
  ∧ close_instance_connections (Collection [i1; stranger]) false two_connected = refused
  ∧ start_instances quiet (Collection [i1; stranger]) false two_connected = refused
  ∧ stop_instances quiet (Collection [i1; stranger]) false two_connected = refused
  ∧ terminate_instances quiet (Collection [i1; stranger]) false two_connected = refused
  ∧ upload_file_to_instance quiet "a" "b" (Collection [i1; stranger]) two_connected = refused
  ∧ execute_command quiet "ls" (Collection [i1; stranger]) two_connected
    = (Raise TypeError,
       log [EvPrint (line ("Executing: " ++ "ls")); EvPrint type_error_text] two_connected)
  ∧ parse_instances (Single stranger) = parse_instances (Collection [stranger])
  ∧ parse_instances AllTracked two_connected = (Return (instances two_connected), two_connected).
Proof.
  apply (untracked_instance_rejected quiet (Collection [i1; stranger]) two_connected
           10 None false "ls" "a" "b" stranger).
  vm_compute. reflexivity.
Defined.

(** ** Teardown at exit *)

Section Cleanup.

Context (W : World).

Lemma delete_one_returns (g : string) (s s' : State) :
  delete_one W g s = (Return tt, s') →
  ∃ text, s' = log [EvDeleteSecurityGroup (environment_configuration (config s)) g;
                    EvPrint text] s.
Proof.
  unfold delete_one. monad.
  destruct (w_delete_group W (trace s) g) as [e|]; simpl.
  - destruct e; try done. intros [= <-]. eexists. by rewrite log_log.
  - intros [= <-]. eexists. by rewrite log_log.
Qed.

Lemma delete_loop_returns (groups : list string) (s s' : State) :
  for_each groups (delete_one W) s = (Return tt, s') →
  ∃ evs, s' = log evs s ∧ deleted_groups evs = groups.
Proof.
  revert s. induction groups as [|g groups IH]; intros s; simpl.
  - intros [= <-]. exists []. by rewrite log_nil.
  - unfold bind. destruct (delete_one W g s) as [[[]|e] s1] eqn:Hg; [|done].
    apply delete_one_returns in Hg as [text ->].
    intros H. apply IH in H as (evs & -> & Hevs).
    eexists. rewrite log_log. split; [done|]. simpl. by rewrite Hevs.
Qed.

(** C6. When the exit routine returns, it has requested the termination
    of every tracked instance; it has waited for each of them exactly when
    the manager owns its rule set; it has then closed sessions, and last
    requested the deletion of the manager's rule sets exactly when the
    manager owns them. *)
Theorem cleanup_terminates_then_deletes_owned (s s' : State) :
  cleanup W s = (Return tt, s') →
  ∃ deletions,
    trace s' =
      (trace s
       ++ request_events "Terminating instance " Terminate (instances s)
       ++ (if security_group_created s
           then wait_events WaitUntilTerminated " terminated" (instances s)
           else [])
       ++ close_events true (ssh_clients s) (instances s)
       ++ deletions)%list
    ∧ (if security_group_created s
       then security_group_ids s = Some (deleted_groups deletions)
       else deletions = []).
Proof.
  unfold cleanup. unfold bind at 1 2. monad.
  destruct (terminate_instances W AllTracked (security_group_created s) s)
    as [[[]|e] s1] eqn:Ht; [|done].
  apply terminate_instances_returns in Ht as [_ ->]. simpl.
  destruct (security_group_created s) eqn:Hown.
  - unfold delete_security_group. monad.
    destruct (security_group_ids s) as [groups|] eqn:Hg; [|done].
    intros H. apply delete_loop_returns in H as (evs & -> & Hevs).
    exists evs. split; [|by rewrite Hevs].
    cbn [trace log set_trace]. by rewrite <- !app_assoc.
  - intros [= <-]. exists []. split; [|done].
    cbn [trace log set_trace]. by rewrite app_nil_r.
Qed.

End Cleanup.

(** The exit routine of a manager that owns its rule set. *)
Lemma cleanup_terminates_then_deletes_owned_witness :
  ∃ deletions,
    trace (cleanup quiet two_owned).2 =
      (trace two_owned
       ++ request_events "Terminating instance " Terminate (instances two_owned)
       ++ (if security_group_created two_owned
           then wait_events WaitUntilTerminated " terminated" (instances two_owned)
           else [])
       ++ close_events true (ssh_clients two_owned) (instances two_owned)
       ++ deletions)%list
    ∧ (if security_group_created two_owned
       then security_group_ids two_owned = Some (deleted_groups deletions)
       else deletions = []).
Proof.
  apply (cleanup_terminates_then_deletes_owned quiet two_owned).
  vm_compute. reflexivity.
Defined.

(** ** Connecting *)

Section Connect.

Context (W : World).

(** One pass through the [try] body. *)
Lemma attempt_spec (i : Instance) (pw : option string) (s : State) :
  let c := next_client s in
  let connect := EvConnect c (public_ip_address i) (username (config s)) pw in
  attempt W i pw s =
  match w_load_key W (trace s) (key_file (config s)) with
  | Some e => (Raise e, set_next_client (S c) s)
  | None =>
      match w_connect W (trace s) i with
      | Some e => (Raise e, set_next_client (S c) (log [connect] s))
      | None =>
          (Return tt,
           set_ssh_clients (<[id i := c]> (ssh_clients s))
             (set_next_client (S c)
                (log (connect :: close_previous_events (ssh_clients s) i) s)))
      end
  end.
Proof.
  unfold attempt, new_client, load_key, close_previous, store_client,
    close_previous_events.
  monad.
  unfold log, set_trace, set_ssh_clients, set_next_client; cbn.
  destruct (w_load_key W (trace s) _); [done|]. cbn.
  destruct (w_connect W (trace s) i); [done|]. cbn.
  destruct (ssh_clients s !! id i); cbn; [|done].
  by rewrite <- app_assoc.
Qed.

(** One turn of the inner loop. *)
Lemma connect_attempts_cons (i : Instance) (pw : option string) (max k : Z)
    (ks : list Z) (s : State) :
  connect_attempts W i pw max (k :: ks) s =
  match attempt W i pw s with
  | (Return _, s1) => (Return tt, s1)
  | (Raise e, s1) =>
      match retry_message e k i with
      | Some text =>
          if (k =? max)%Z then (Raise e, s1)
          else connect_attempts W i pw max ks
                 (log [EvPrint (line text); EvSleep 10] s1)
      | None => (Raise e, s1)
      end
  end.
Proof.
  cbn [connect_attempts]. unfold bind at 1. unfold try_except, bind at 1.
  destruct (attempt W i pw s) as [[[]|e] s1]; [done|].
  destruct (retry_message e k i) as [text|]; [|done].
  destruct (k =? max)%Z; [done|].
  monad. by rewrite log_log.
Qed.





















End Connect.






(** ** Rule sets *)

Section SecurityGroup.

Context (W : World).

(** C5. A creation refused with the duplicate error makes the method
    look the rule set up by name and record the identifier found, the
    ownership flag being left as it was; a creation refused otherwise is
    raised again, identifiers and flag untouched; so a creating call
    followed by a call that meets the duplicate error leaves the same
    identifier twice, the flag having been set by the first call alone. *)
Theorem create_security_group_duplicate_adopts (s : State) :
  (∀ message g others,
     w_create_group W (trace s) = inl (ClientError message) →
     contains "InvalidGroup.Duplicate" message = true →
     w_describe_groups W (trace s ++ [create_event; already_created_event])
     = inr (g :: others) →
     create_security_group W s
     = (Return tt,
        set_security_group_ids (Some [g])
          (log [create_event; already_created_event;
                EvDescribeSecurityGroups group_name] s)))
  ∧ (∀ e,
       w_create_group W (trace s) = inl e →
       (∀ message, e = ClientError message →
          contains "InvalidGroup.Duplicate" message = false) →
       ∃ printed, create_security_group W s = (Raise e, log (create_event :: printed) s))
  ∧ (∀ g message others s1,
       w_create_group W (trace s) = inr g →
       w_authorize_ingress W (trace s ++ [create_event]) g = None →
       create_security_group W s = (Return tt, s1) →
       w_create_group W (trace s1) = inl (ClientError message) →
       contains "InvalidGroup.Duplicate" message = true →
       w_describe_groups W (trace s1 ++ [create_event; already_created_event])
       = inr (g :: others) →
       ∃ s2, create_security_group W s1 = (Return tt, s2)
             ∧ security_group_ids s1 = Some [g]
             ∧ security_group_ids s2 = Some [g]
             ∧ security_group_created s1 = true
             ∧ security_group_created s2 = security_group_created s1).
Proof.
  assert (Hadopt : ∀ s message g others,
     w_create_group W (trace s) = inl (ClientError message) →
     contains "InvalidGroup.Duplicate" message = true →
     w_describe_groups W (trace s ++ [create_event; already_created_event])
     = inr (g :: others) →
     create_security_group W s
     = (Return tt,
        set_security_group_ids (Some [g])
          (log [create_event; already_created_event;
                EvDescribeSecurityGroups group_name] s))).
  { clear s. intros s message g others Hc Hdup Hd.
    unfold create_security_group. monad. fold create_event.
    rewrite Hc. cbn. rewrite Hdup. cbn. rewrite <- app_assoc. cbn.
    fold already_created_event. rewrite Hd.
    unfold log, set_trace, set_security_group_ids. cbn.
    by rewrite <- !app_assoc. }
  split; [apply Hadopt|]. split.
  - intros e Hc He. unfold create_security_group. monad. fold create_event.
    rewrite Hc. cbn. destruct e; try by (exists []).
    rewrite (He message eq_refl). cbn. eexists [_]. by rewrite log_log.
  - intros g message others s1 Hc Ha H Hc1 Hdup Hd.
    unfold create_security_group in H. monad. fold create_event in H.
    rewrite Hc in H. cbn in H. rewrite Ha in H. cbn in H. injection H as <-.
    eexists. split; [by eapply Hadopt|]. done.
Qed.

End SecurityGroup.

(** Two calls in a row against the provider that creates once. *)
Lemma create_security_group_duplicate_adopts_witness :
  ∃ s1 s2,
    create_security_group one_group_provider two_tracked = (Return tt, s1)
    ∧ create_security_group one_group_provider s1 = (Return tt, s2)
    ∧ security_group_ids s1 = Some ["sg-7"]
    ∧ security_group_ids s2 = Some ["sg-7"]
    ∧ security_group_created two_tracked = false
    ∧ security_group_created s1 = true
    ∧ security_group_created s2 = security_group_created s1.
Proof.
  destruct (create_security_group_duplicate_adopts one_group_provider two_tracked)
    as (_ & _ & Htwice).
  destruct (Htwice "sg-7"
              "An error occurred (InvalidGroup.Duplicate) when calling the CreateSecurityGroup operation"
              [] (create_security_group one_group_provider two_tracked).2)
    as (s2 & H2 & Hg1 & Hg2 & Hf1 & Hf2); try reflexivity.
  exists (create_security_group one_group_provider two_tracked).2, s2.
  repeat split; assumption.
Defined.

(** ** Remote commands *)

Section Execute.

Context (W : World).

Lemma print_lines_spec (lines : list string) (s : State) :
  for_each lines print_raw s = (Return tt, log (map EvPrint lines) s).
Proof.
  revert s. induction lines as [|l lines IH]; intros s; cbn.
  - by rewrite log_nil.
  - monad. by rewrite IH, log_log.
Qed.

(** The body of the loop of [execute_command]. *)
Lemma execute_one_spec (command : string) (i : Instance) (s : State) :
  execute_one W command i s =
  match ssh_clients s !! id i with
  | None => (Raise (KeyError (id i)), s)
  | Some c =>
      match w_exec W (trace s) c command with
      | inl e => (Raise e, log [EvExecCommand c command] s)
      | inr r => (Return tt, log (EvExecCommand c command :: output_events r) s)
      end
  end.
Proof.
  unfold execute_one, lookup_client, output_events. monad.
  destruct (ssh_clients s !! id i) as [c|]; [|done]. cbn.
  destruct (w_exec W (trace s) c command) as [e|r]; [done|]. cbn.
  destruct (exit_status r =? 0)%Z; by rewrite print_lines_spec, log_log.
Qed.



End Execute.


(** * Further properties *)

(** ** Closing, stopping, starting *)

(** X1. On an accepted subset [close_instance_connections] returns,
    whatever the flag, and keeps the session mapping; so a second call
    finds the same sessions and closes the same clients once more. *)
Theorem close_instance_connections_twice (a : subset) (first second : bool)
    (s : State) :
  untracked a s = false →
  ∃ s1 s2,
    close_instance_connections a first s = (Return tt, s1)
    ∧ close_instance_connections a second s1 = (Return tt, s2)
    ∧ ssh_clients s2 = ssh_clients s
    ∧ trace s2
      = (trace s
         ++ close_events first (ssh_clients s) (selected a s)
         ++ close_events second (ssh_clients s) (selected a s))%list.
Proof.
  intros Ha.
  exists (log (close_events first (ssh_clients s) (selected a s)) s),
    (log (close_events first (ssh_clients s) (selected a s)
          ++ close_events second (ssh_clients s) (selected a s)) s).
  rewrite !close_instance_connections_spec.
  change (untracked a (log ?e s)) with (untracked a s). rewrite Ha.
  split; [done|]. split; [|done].
  rewrite log_log. by destruct a.
Qed.

(** Both instances closed twice after [connect_to_instances()]. *)
Lemma close_instance_connections_twice_witness :
  ∃ s1 s2,
    close_instance_connections AllTracked false two_connected = (Return tt, s1)
    ∧ close_instance_connections AllTracked true s1 = (Return tt, s2)
    ∧ ssh_clients s2 = ssh_clients two_connected
    ∧ trace s2
      = (trace two_connected
         ++ close_events false (ssh_clients two_connected)
              (selected AllTracked two_connected)
         ++ close_events true (ssh_clients two_connected)
              (selected AllTracked two_connected))%list.
Proof.
  apply (close_instance_connections_twice AllTracked false true two_connected).
  reflexivity.
Defined.

Section StopStart.

Context (W : World).

(** X2. When [stop_instances] returns it has, for each selected
    instance, printed "Terminating instance <id>" (the source's text)
    and requested the stop; it has waited for each exactly when asked
    to; it has then closed the sessions of the selected instances without
    any warning; these are all its calls, and the session mapping is the
    one it started with. *)
Theorem stop_instances_returns (a : subset) (wait_until_stopped : bool)
    (s s' : State) :
  stop_instances W a wait_until_stopped s = (Return tt, s') →
  untracked a s = false
  ∧ trace s'
    = (trace s
       ++ request_events "Terminating instance " Stop (selected a s)
       ++ (if wait_until_stopped
           then wait_events WaitUntilStopped " stopped" (selected a s)
           else [])
       ++ close_events true (ssh_clients s) (selected a s))%list
  ∧ ssh_clients s' = ssh_clients s.
Proof.
  unfold stop_instances, bind at 1. rewrite parse_instances_spec.
  destruct (untracked a s) eqn:Ha; [done|]. intros H. split; [done|].
  unfold bind in H.
  destruct (for_each _ _ s) as [[[]|e] s1] eqn:H1; [|done].
  apply request_loop_log in H1 as ->.
  destruct wait_until_stopped.
  - destruct (for_each _ _ (log _ s)) as [[[]|e] s2] eqn:H2; [|done].
    apply wait_loop_log in H2 as ->.
    rewrite close_instance_connections_spec in H.
    rewrite log_log in H. simpl selected in H.
    change (untracked (Collection (selected a s)) (log ?e s))
      with (untracked (Collection (selected a s)) s) in H.
    rewrite selected_accepted in H by done.
    injection H as <-. rewrite log_log. split; [|done].
    cbn [trace log set_trace]. by rewrite <- !app_assoc.
  - simpl in H. rewrite close_instance_connections_spec in H.
    change (untracked (Collection (selected a s)) (log ?e s))
      with (untracked (Collection (selected a s)) s) in H.
    rewrite selected_accepted in H by done.
    injection H as <-. rewrite log_log. split; [|done].
    cbn [trace log set_trace]. done.
Qed.

(** X3. When [start_instances] returns it has announced and requested
    the start of each selected instance, and waited for each exactly when
    asked to; these are all its calls: no session is closed, and the
    session mapping is the one it started with. *)
Theorem start_instances_returns (a : subset) (wait_until_running : bool)
    (s s' : State) :
  start_instances W a wait_until_running s = (Return tt, s') →
  untracked a s = false
  ∧ trace s'
    = (trace s
       ++ request_events "Starting instance " Start (selected a s)
       ++ (if wait_until_running
           then wait_events WaitUntilRunning " running" (selected a s)
           else []))%list
  ∧ ssh_clients s' = ssh_clients s
  ∧ List.filter is_close (drop (length (trace s)) (trace s')) = [].
Proof.
  unfold start_instances, bind at 1. rewrite parse_instances_spec.
  destruct (untracked a s) eqn:Ha; [done|]. intros H. split; [done|].
  unfold bind in H.
  destruct (for_each _ _ s) as [[[]|e] s1] eqn:H1; [|done].
  apply request_loop_log in H1 as ->.
  assert (Hnone : ∀ l, List.filter is_close
            (request_events "Starting instance " Start l
             ++ (if wait_until_running
                 then wait_events WaitUntilRunning " running" l else [])) = []).
  { intros l. rewrite List.filter_app.
    assert (List.filter is_close (request_events "Starting instance " Start l) = [])
      as -> by (induction l; [done|by cbn]).
    destruct wait_until_running; [|done]. induction l; [done|by cbn]. }
  destruct wait_until_running.
  - apply wait_loop_log in H as ->. rewrite log_log.
    cbn [trace log set_trace ssh_clients]. split; [done|]. split; [done|].
    rewrite drop_app_length. apply Hnone.
  - injection H as <-. cbn [trace log set_trace ssh_clients].
    specialize (Hnone (selected a s)). rewrite app_nil_r in *.
    split; [done|]. split; [done|].
    rewrite drop_app_length. apply Hnone.
Qed.

End StopStart.

(** The first instance stopped, with waiting, after both were connected. *)
Lemma stop_instances_returns_witness :
  untracked (Single i1) two_connected = false
  ∧ trace (stop_instances quiet (Single i1) true two_connected).2
    = (trace two_connected
       ++ request_events "Terminating instance " Stop (selected (Single i1) two_connected)
       ++ (if true
           then wait_events WaitUntilStopped " stopped" (selected (Single i1) two_connected)
           else [])
       ++ close_events true (ssh_clients two_connected)
            (selected (Single i1) two_connected))%list
  ∧ ssh_clients (stop_instances quiet (Single i1) true two_connected).2
    = ssh_clients two_connected.
Proof.
  apply (stop_instances_returns quiet (Single i1) true two_connected).
  vm_compute. reflexivity.
Defined.

(** Both instances started without waiting. *)
Lemma start_instances_returns_witness :
  untracked AllTracked two_connected = false
  ∧ trace (start_instances quiet AllTracked false two_connected).2
    = (trace two_connected
       ++ request_events "Starting instance " Start (selected AllTracked two_connected)
       ++ (if false
           then wait_events WaitUntilRunning " running" (selected AllTracked two_connected)
           else []))%list
  ∧ ssh_clients (start_instances quiet AllTracked false two_connected).2
    = ssh_clients two_connected
  ∧ List.filter is_close
      (drop (length (trace two_connected))
         (trace (start_instances quiet AllTracked false two_connected).2)) = [].
Proof.
  apply (start_instances_returns quiet AllTracked false two_connected).
  vm_compute. reflexivity.
Defined.

(** ** A refused lifecycle call *)

Section Refusal.

Context (W : World).

Lemma request_loop_accepted (announce : string) (c : lifecycle)
    (l : list Instance) :
  (∀ t j, j ∈ l → w_instance W t c j = None) →
  ∀ s, for_each l (λ i, print (announce ++ id i) ;;; instance_call W c i) s
       = (Return tt, log (request_events announce c l) s).
Proof.
  induction l as [|x l IH]; intros Hok s; cbn [for_each].
  - by rewrite log_nil.
  - unfold bind at 1. unfold instance_call. monad.
    rewrite (Hok _ x) by apply list_elem_of_here.
    rewrite log_log, IH, log_log; [done|].
    intros t j Hj. apply Hok. by apply list_elem_of_further.
Qed.

Lemma request_loop_refused (announce : string) (c : lifecycle)
    (pre post : list Instance) (i : Instance) (e : exn) (s : State) :
  (∀ t j, j ∈ pre → w_instance W t c j = None) →
  w_instance W
    (trace s ++ request_events announce c pre
     ++ [EvPrint (line (announce ++ id i))]) c i = Some e →
  for_each (pre ++ i :: post)
    (λ i, print (announce ++ id i) ;;; instance_call W c i) s
  = (Raise e, log (request_events announce c (pre ++ [i])) s).
Proof.
  intros Hpre Hi. rewrite for_each_app, request_loop_accepted by done.
  cbn [for_each]. unfold bind at 1. unfold instance_call. monad.
  rewrite <- app_assoc. rewrite Hi.
  rewrite !log_log. unfold request_events. by rewrite flat_map_app.
Qed.

(** X4. If the provider refuses the termination of one selected
    instance, those before it having been accepted, then
    [terminate_instances] raises that refusal at once: the instances
    after it are not requested, nothing is waited for and no session is
    closed, whatever the wait flag. *)
Theorem terminate_instances_refused (a : subset) (wait_until_terminated : bool)
    (pre post : list Instance) (i : Instance) (e : exn) (s : State) :
  untracked a s = false →
  selected a s = (pre ++ i :: post)%list →
  (∀ t j, j ∈ pre → w_instance W t Terminate j = None) →
  w_instance W
    (trace s ++ request_events "Terminating instance " Terminate pre
     ++ [EvPrint (line ("Terminating instance " ++ id i))]) Terminate i = Some e →
  terminate_instances W a wait_until_terminated s
  = (Raise e, log (request_events "Terminating instance " Terminate (pre ++ [i])) s).
Proof.
  intros Ha Hsel Hpre Hi.
  unfold terminate_instances, bind at 1. rewrite parse_instances_spec, Ha, Hsel.
  unfold bind at 1.
  by rewrite (request_loop_refused _ _ pre post i e s Hpre Hi).
Qed.

(** X5. The exit routine stops at the same refusal: when the provider
    refuses the termination of a tracked instance, [cleanup] raises and
    requests no deletion of the rule set, even one the manager owns. *)
Theorem cleanup_refused_skips_deletion (pre post : list Instance) (i : Instance)
    (e : exn) (s : State) :
  instances s = (pre ++ i :: post)%list →
  (∀ t j, j ∈ pre → w_instance W t Terminate j = None) →
  w_instance W
    (trace s ++ request_events "Terminating instance " Terminate pre
     ++ [EvPrint (line ("Terminating instance " ++ id i))]) Terminate i = Some e →
  cleanup W s
  = (Raise e, log (request_events "Terminating instance " Terminate (pre ++ [i])) s)
  ∧ deleted_groups (request_events "Terminating instance " Terminate (pre ++ [i])) = [].
Proof.
  intros Hsel Hpre Hi. split.
  - unfold cleanup, bind at 1. unfold get. unfold bind at 1.
    unfold terminate_instances, bind at 1. rewrite parse_instances_spec.
    cbn [untracked given existsb selected]. rewrite Hsel.
    unfold bind at 1.
    by rewrite (request_loop_refused _ _ pre post i e s Hpre Hi).
  - generalize (pre ++ [i])%list. intros l. induction l; [done|by cbn].
Qed.

End Refusal.

(** The second of three selected instances is refused. *)
Lemma terminate_instances_refused_witness :
  terminate_instances i2_refused (Collection [i1; i2; i1]) true two_connected
  = (Raise (ClientError "IncorrectInstanceState"),
     log (request_events "Terminating instance " Terminate ([i1] ++ [i2]))
       two_connected).
Proof.
  apply (terminate_instances_refused i2_refused (Collection [i1; i2; i1]) true
           [i1] [i1] i2 (ClientError "IncorrectInstanceState") two_connected).
  - reflexivity.
  - reflexivity.
  - intros t j Hj. apply list_elem_of_singleton in Hj. rewrite Hj. reflexivity.
  - reflexivity.
Defined.

(** The exit routine of a manager that owns its rule set, the second
    instance being refused. *)
Lemma cleanup_refused_skips_deletion_witness :
  cleanup i2_refused two_owned
  = (Raise (ClientError "IncorrectInstanceState"),
     log (request_events "Terminating instance " Terminate ([i1] ++ [i2])) two_owned)
  ∧ deleted_groups (request_events "Terminating instance " Terminate ([i1] ++ [i2])) = [].
Proof.
  apply (cleanup_refused_skips_deletion i2_refused [i1] [] i2
           (ClientError "IncorrectInstanceState") two_owned).
  - reflexivity.
  - intros t j Hj. apply list_elem_of_singleton in Hj. rewrite Hj. reflexivity.
  - reflexivity.
Defined.

(** ** What the methods never change *)

Lemma only_logs_ret {A} (a : A) : only_logs (ret a).
Proof. intros s r s' [= <- <-]. exists []. by rewrite log_nil. Qed.

Lemma only_logs_raise {A} (e : exn) : only_logs (raise (A := A) e).
Proof. intros s r s' [= <- <-]. exists []. by rewrite log_nil. Qed.

Lemma only_logs_emit (ev : event) : only_logs (emit ev).
Proof. intros s r s' [= <- <-]. by exists [ev]. Qed.

Lemma only_logs_call (ev : event) (answer : list event → option exn) :
  only_logs (call ev answer).
Proof.
  intros s r s'. unfold call.
  destruct (answer (trace s)); intros [= <- <-]; by exists [ev].
Qed.

Lemma only_logs_call_value {A} (ev : event) (answer : list event → exn + A) :
  only_logs (call_value ev answer).
Proof.
  intros s r s'. unfold call_value.
  destruct (answer (trace s)); intros [= <- <-]; by exists [ev].
Qed.

Lemma only_logs_bind {A B} (m : M A) (k : A → M B) :
  only_logs m → (∀ a, only_logs (k a)) → only_logs (bind m k).
Proof.
  intros Hm Hk s r s'. unfold bind.
  destruct (m s) as [[a|e] s1] eqn:H1; apply Hm in H1 as [evs1 ->].
  - intros H2. apply Hk in H2 as [evs2 ->]. eexists. by rewrite log_log.
  - intros [= <- <-]. by exists evs1.
Qed.

(** Reading the state decides what comes next, without changing it. *)
Lemma only_logs_get {B} (k : State → M B) :
  (∀ s0, only_logs (k s0)) → only_logs (bind get k).
Proof. intros Hk s r s' H. by apply (Hk s) in H. Qed.

Lemma only_logs_try {A} (body : M A) (handler : exn → M A) :
  only_logs body → (∀ e, only_logs (handler e)) →
  only_logs (try_except body handler).
Proof.
  intros Hb Hh s r s'. unfold try_except.
  destruct (body s) as [[a|e] s1] eqn:H1; apply Hb in H1 as [evs1 ->].
  - intros [= <- <-]. by exists evs1.
  - intros H2. apply Hh in H2 as [evs2 ->]. eexists. by rewrite log_log.
Qed.

Lemma only_logs_for_each {A} (l : list A) (body : A → M unit) :
  (∀ x, only_logs (body x)) → only_logs (for_each l body).
Proof.
  intros Hb. induction l as [|x l IH]; cbn [for_each].
  - apply only_logs_ret.
  - apply only_logs_bind; [apply Hb | intros _; apply IH].
Qed.

Create HintDb frame.
#[local] Hint Resolve only_logs_ret only_logs_raise only_logs_emit
  only_logs_call only_logs_call_value only_logs_bind only_logs_get
  only_logs_try only_logs_for_each : frame.

Lemma only_logs_print (text : string) : only_logs (print text).
Proof. apply only_logs_emit. Qed.

Lemma only_logs_print_raw (text : string) : only_logs (print_raw text).
Proof. apply only_logs_emit. Qed.

Lemma only_logs_parse (a : subset) : only_logs (parse_instances a).
Proof.
  intros s r s'. rewrite parse_instances_spec.
  destruct (untracked a s); intros [= <- <-]; [by eexists|].
  exists []. by rewrite log_nil.
Qed.

Lemma only_logs_lookup (key : string) : only_logs (lookup_client key).
Proof.
  apply only_logs_get. intros s0.
  destruct (ssh_clients s0 !! key); auto with frame.
Qed.

#[local] Hint Resolve only_logs_print only_logs_print_raw only_logs_parse
  only_logs_lookup : frame.

Section Frame.

Context (W : World).

Lemma only_logs_instance_call (c : lifecycle) (i : Instance) :
  only_logs (instance_call W c i).
Proof. apply only_logs_call. Qed.

Lemma only_logs_close (a : subset) (flag : bool) :
  only_logs (close_instance_connections a flag).
Proof.
  intros s r s'. rewrite close_instance_connections_spec.
  destruct (untracked a s); intros [= <- <-]; by eexists.
Qed.

Lemma only_logs_terminate (a : subset) (flag : bool) :
  only_logs (terminate_instances W a flag).
Proof.
  pose proof only_logs_instance_call. pose proof only_logs_close.
  unfold terminate_instances. destruct flag; auto 10 with frame.
Qed.

Lemma only_logs_delete : only_logs (delete_security_group W).
Proof.
  unfold delete_security_group. apply only_logs_get. intros s0.
  destruct (security_group_ids s0); [|auto with frame].
  apply only_logs_for_each. intros g. unfold delete_one.
  apply only_logs_try; [auto 10 with frame|].
  intros e. destruct e; auto with frame.
Qed.

Lemma only_logs_keeps_tracking {A} (m : M A) : only_logs m → keeps_tracking m.
Proof. intros Hm s r s' H. apply Hm in H as [evs ->]. repeat split. by exists evs. Qed.

(** X6. However they end, by a return or by an exception:
    [close_instance_connections], [execute_command],
    [upload_file_to_instance] and [delete_security_group] leave the
    manager as it was but for the trace; [start_instances],
    [stop_instances], [terminate_instances] and [cleanup] keep the
    identifiers of the tracked collection in their order (terminated
    instances stay tracked), the session mapping, the rule-set
    identifiers and the ownership flag. *)
Theorem methods_only_log (a : subset) (flag : bool)
    (command source_file destination_file : string) :
  only_logs (close_instance_connections a flag)
  ∧ only_logs (execute_command W command a)
  ∧ only_logs (upload_file_to_instance W source_file destination_file a)
  ∧ only_logs (delete_security_group W)
  ∧ keeps_tracking (start_instances W a flag)
  ∧ keeps_tracking (stop_instances W a flag)
  ∧ keeps_tracking (terminate_instances W a flag)
  ∧ keeps_tracking (cleanup W).
Proof.
  pose proof only_logs_instance_call. pose proof only_logs_close.
  pose proof only_logs_terminate. pose proof only_logs_delete.
  split; [done|]. split; [|split; [|split; [done|]]].
  - unfold execute_command. apply only_logs_bind; [auto with frame|].
    intros _. apply only_logs_bind; [auto with frame|]. intros l.
    apply only_logs_for_each. intros i. unfold execute_one.
    apply only_logs_bind; [auto with frame|]. intros c.
    apply only_logs_bind; [auto with frame|]. intros r.
    destruct (exit_status r =? 0)%Z; auto with frame.
  - unfold upload_file_to_instance. apply only_logs_bind; [auto with frame|].
    intros l. apply only_logs_for_each. intros i. unfold upload_one.
    auto 10 with frame.
  - split; [|split; [|split]]; apply only_logs_keeps_tracking; try done.
    + unfold start_instances. destruct flag; auto 10 with frame.
    + unfold stop_instances. destruct flag; auto 10 with frame.
    + unfold cleanup. apply only_logs_get. intros s0.
      apply only_logs_bind; [done|]. intros _.
      apply only_logs_get. intros s1.
      destruct (security_group_created s1); auto with frame.
Qed.

End Frame.

(** ** Connecting: bounds, other errors, plain success *)

Section ConnectMore.

Context (W : World).

(** X7. With [max_attempts <= 0] the range of attempts is empty: on an
    accepted subset [connect_to_instances] returns normally having tried
    nothing, created no client and stored no session. *)
Theorem connect_without_attempts (a : subset) (max_attempts : Z)
    (pw : option string) (s : State) :
  (max_attempts ≤ 0)%Z →
  untracked a s = false →
  connect_to_instances W a max_attempts pw s = (Return tt, s).
Proof.
  intros Hmax Ha. unfold connect_to_instances, bind at 1.
  rewrite parse_instances_spec, Ha.
  induction (selected a s) as [|x l IH]; [done|].
  cbn [for_each]. unfold bind at 1.
  unfold connect_instance at 1, attempt_numbers, seqZ.
  replace (Z.to_nat max_attempts) with 0%nat by lia. exact IH.
Qed.


(** The first attempt on one instance, accepted by the world. *)
Lemma connect_instance_first_try (i : Instance) (pw : option string) (max : Z)
    (s : State) :
  (1 ≤ max)%Z →
  w_load_key W (trace s) (key_file (config s)) = None →
  w_connect W (trace s) i = None →
  connect_instance W pw max i s
  = (Return tt, connected i pw (next_client s) [] s).
Proof.
  intros Hmax Hkey Hc. unfold connect_instance, attempt_numbers.
  rewrite seqZ_cons by lia.
  by rewrite connect_attempts_cons, attempt_spec, Hkey, Hc.
Qed.

Lemma connect_loop_first_try (pw : option string) (max : Z) (kf : option string)
    (l : list Instance) :
  (1 ≤ max)%Z →
  (∀ t, w_load_key W t kf = None) →
  (∀ t i, i ∈ l → w_connect W t i = None) →
  ∀ s, key_file (config s) = kf →
    ∃ s' evs,
      for_each l (connect_instance W pw max) s = (Return tt, s')
      ∧ trace s' = (trace s ++ evs)%list
      ∧ connect_hosts evs = map public_ip_address l
      ∧ List.filter is_sleep evs = []
      ∧ next_client s' = (next_client s + length l)%nat
      ∧ dom (ssh_clients s') = dom (ssh_clients s) ∪ list_to_set (map id l).
Proof.
  intros Hmax Hkey. induction l as [|x l IH]; intros Hc s Hkf.
  - exists s, []. cbn. rewrite app_nil_r, Nat.add_0_r.
    repeat split; try done. by rewrite union_empty_r_L.
  - cbn [for_each]. unfold bind at 1.
    rewrite connect_instance_first_try; [|done|by rewrite Hkf|];
      [|apply Hc, list_elem_of_here].
    destruct (IH (λ t i Hi, Hc t i (list_elem_of_further _ _ _ Hi))
                (connected x pw (next_client s) [] s) Hkf)
      as (s' & evs & -> & Ht & Hh & Hs & Hn & Hd).
    exists s',
      ((EvConnect (next_client s) (public_ip_address x) (username (config s)) pw
        :: close_previous_events (ssh_clients s) x) ++ evs)%list.
    split; [done|]. split; [|split; [|split; [|split]]].
    + rewrite Ht. cbn. by rewrite <- app_assoc.
    + unfold connect_hosts in *. rewrite omap_app, Hh.
      unfold close_previous_events. by destruct (ssh_clients s !! id x).
    + rewrite List.filter_app, Hs.
      unfold close_previous_events. by destruct (ssh_clients s !! id x).
    + rewrite Hn. cbn. lia.
    + rewrite Hd. cbn. rewrite dom_insert_L.
      rewrite (comm_L (∪) {[id x]} (dom (ssh_clients s))).
      by rewrite (assoc_L (∪)).
Qed.

(** X9. When the key loads and the world accepts every connection,
    [connect_to_instances] with [max_attempts >= 1] returns: it has
    requested exactly one connection per selected instance, in order,
    never slept, created one client per instance, and every selected
    instance has a session afterwards. *)
Theorem connect_all_first_try (a : subset) (max_attempts : Z)
    (pw : option string) (s : State) :
  untracked a s = false →
  (1 ≤ max_attempts)%Z →
  (∀ t, w_load_key W t (key_file (config s)) = None) →
  (∀ t i, i ∈ selected a s → w_connect W t i = None) →
  ∃ s' evs,
    connect_to_instances W a max_attempts pw s = (Return tt, s')
    ∧ trace s' = (trace s ++ evs)%list
    ∧ connect_hosts evs = map public_ip_address (selected a s)
    ∧ List.filter is_sleep evs = []
    ∧ next_client s' = (next_client s + length (selected a s))%nat
    ∧ ∀ i, i ∈ selected a s → is_Some (ssh_clients s' !! id i).
Proof.
  intros Ha Hmax Hkey Hc.
  destruct (connect_loop_first_try pw max_attempts _ (selected a s) Hmax Hkey Hc
              s eq_refl) as (s' & evs & Hrun & Ht & Hh & Hs & Hn & Hd).
  exists s', evs. split; [|repeat split; try done].
  - unfold connect_to_instances, bind at 1.
    by rewrite parse_instances_spec, Ha.
  - intros i Hi. apply elem_of_dom. rewrite Hd. apply elem_of_union_r.
    apply elem_of_list_to_set, list_elem_of_fmap. by exists i.
Qed.



End ConnectMore.

(** No attempt at all with [max_attempts = 0]. *)
Lemma connect_without_attempts_witness :
  connect_to_instances quiet AllTracked 0 None two_tracked = (Return tt, two_tracked).
Proof.
  apply (connect_without_attempts quiet AllTracked 0 None two_tracked).
  - lia.
  - reflexivity.
Defined.


(** [connect_to_instances()] on the two tracked instances. *)
Lemma connect_all_first_try_witness :
  ∃ s' evs,
    connect_to_instances quiet AllTracked 10 None two_tracked = (Return tt, s')
    ∧ trace s' = (trace two_tracked ++ evs)%list
    ∧ connect_hosts evs = map public_ip_address (selected AllTracked two_tracked)
    ∧ List.filter is_sleep evs = []
    ∧ next_client s'
      = (next_client two_tracked + length (selected AllTracked two_tracked))%nat
    ∧ ∀ i, i ∈ selected AllTracked two_tracked → is_Some (ssh_clients s' !! id i).
Proof.
  apply (connect_all_first_try quiet AllTracked 10 None two_tracked).
  - reflexivity.
  - lia.
  - reflexivity.
  - reflexivity.
Defined.


(** ** Remote commands and uploads over a whole subset *)

Section Remote.

Context (W : World).

Lemma exec_clients_app (a b : list event) :
  exec_clients (a ++ b) = (exec_clients a ++ exec_clients b)%list.
Proof. apply omap_app. Qed.

Lemma exec_commands_app (a b : list event) :
  exec_commands (a ++ b) = (exec_commands a ++ exec_commands b)%list.
Proof. apply omap_app. Qed.

Lemma exec_clients_output (r : exec_result) : exec_clients (output_events r) = [].
Proof.
  unfold output_events.
  generalize (if (exit_status r =? 0)%Z then stdout_lines r else stderr_lines r).
  intros lines. induction lines; [done|by cbn].
Qed.

Lemma exec_commands_output (r : exec_result) : exec_commands (output_events r) = [].
Proof.
  unfold output_events.
  generalize (if (exit_status r =? 0)%Z then stdout_lines r else stderr_lines r).
  intros lines. induction lines; [done|by cbn].
Qed.

Lemma execute_loop_all (command : string) (m : gmap string client)
    (l : list Instance) :
  (∀ i, i ∈ l → is_Some (m !! id i)) →
  (∀ t c, ∃ r, w_exec W t c command = inr r) →
  ∀ s, ssh_clients s = m →
    ∃ evs,
      for_each l (execute_one W command) s = (Return tt, log evs s)
      ∧ Some <$> exec_clients evs = (λ i, m !! id i) <$> l
      ∧ exec_commands evs = replicate (length l) command.
Proof.
  intros Hsess Hexec. induction l as [|i l IH]; intros s Hm.
  - exists []. by rewrite log_nil.
  - cbn [for_each]. unfold bind at 1. rewrite execute_one_spec, Hm.
    destruct (Hsess i) as [c Hc]; [apply list_elem_of_here|]. rewrite Hc.
    destruct (Hexec (trace s) c) as [r ->].
    destruct (IH (λ j Hj, Hsess j (list_elem_of_further _ _ _ Hj))
                (log (EvExecCommand c command :: output_events r) s) Hm)
      as (evs & -> & Hcl & Hcm).
    exists ((EvExecCommand c command :: output_events r) ++ evs)%list.
    rewrite log_log. split; [done|].
    rewrite exec_clients_app, exec_commands_app.
    change (exec_clients (EvExecCommand c command :: ?x)) with (c :: exec_clients x).
    change (exec_commands (EvExecCommand c command :: ?x))
      with (command :: exec_commands x).
    rewrite exec_clients_output, exec_commands_output. cbn.
    by rewrite Hcl, Hcm, Hc.
Qed.

(** X11. When every selected instance has a session and each remote
    command ends with an exit status, [execute_command] returns normally
    whatever the statuses: after its announcement it has run the command
    once per selected instance, in order, on that instance's session, and
    changed nothing but the trace. *)
Theorem execute_command_all_report (command : string) (a : subset) (s : State) :
  untracked a s = false →
  (∀ i, i ∈ selected a s → is_Some (ssh_clients s !! id i)) →
  (∀ t c, ∃ r, w_exec W t c command = inr r) →
  ∃ evs,
    execute_command W command a s
    = (Return tt, log (EvPrint (line ("Executing: " ++ command)) :: evs) s)
    ∧ Some <$> exec_clients evs = (λ i, ssh_clients s !! id i) <$> selected a s
    ∧ exec_commands evs = replicate (length (selected a s)) command.
Proof.
  intros Ha Hsess Hexec.
  destruct (execute_loop_all command (ssh_clients s) (selected a s) Hsess Hexec
              (log [EvPrint (line ("Executing: " ++ command))] s) eq_refl)
    as (evs & Hrun & Hcl & Hcm).
  exists evs. split; [|done].
  unfold execute_command. unfold bind at 1. unfold print, emit, modify.
  unfold bind at 1. rewrite parse_instances_spec.
  change (untracked a (log ?e s)) with (untracked a s). rewrite Ha.
  change (selected a (log ?e s)) with (selected a s).
  by rewrite Hrun, log_log.
Qed.

(** X12. [download_file_from_url] runs [wget <url>] through
    [execute_command]: with a session for every selected instance and an
    exit status for every run, it returns normally, having run that one
    command once per instance, even when [wget] failed remotely. *)
Theorem download_file_from_url_all_report (url : string) (a : subset) (s : State) :
  untracked a s = false →
  (∀ i, i ∈ selected a s → is_Some (ssh_clients s !! id i)) →
  (∀ t c, ∃ r, w_exec W t c ("wget " ++ url) = inr r) →
  ∃ evs,
    download_file_from_url W url a s
    = (Return tt, log (EvPrint (line ("Executing: wget " ++ url)) :: evs) s)
    ∧ exec_commands evs = replicate (length (selected a s)) ("wget " ++ url).
Proof.
  intros Ha Hsess Hexec.
  destruct (execute_loop_all ("wget " ++ url) (ssh_clients s) (selected a s)
              Hsess Hexec
              (log [EvPrint (line ("Executing: " ++ ("wget " ++ url)))] s) eq_refl)
    as (evs & Hrun & _ & Hcm).
  exists evs. split; [|done].
  unfold download_file_from_url, execute_command.
  unfold bind at 1. unfold print, emit, modify.
  unfold bind at 1. rewrite parse_instances_spec.
  change (untracked a (log ?e s)) with (untracked a s). rewrite Ha.
  change (selected a (log ?e s)) with (selected a s).
  by rewrite Hrun, log_log.
Qed.

End Remote.

(** A command that fails on both connected instances. *)
Lemma execute_command_all_report_witness :
  ∃ evs,
    execute_command one_group_provider "ls data" AllTracked two_connected
    = (Return tt, log (EvPrint (line ("Executing: " ++ "ls data")) :: evs) two_connected)
    ∧ Some <$> exec_clients evs
      = (λ i, ssh_clients two_connected !! id i) <$> selected AllTracked two_connected
    ∧ exec_commands evs
      = replicate (length (selected AllTracked two_connected)) "ls data".
Proof.
  apply (execute_command_all_report one_group_provider "ls data" AllTracked
           two_connected).
  - reflexivity.
  - intros i Hi. apply elem_of_cons in Hi as [Hi|Hi].
    + rewrite Hi. eexists. reflexivity.
    + apply list_elem_of_singleton in Hi. rewrite Hi. eexists. reflexivity.
  - intros t c. eexists. reflexivity.
Defined.

(** A download on the first connected instance, [wget] failing remotely. *)
Lemma download_file_from_url_all_report_witness :
  ∃ evs,
    download_file_from_url one_group_provider "http://example.org/a" (Single i1)
      two_connected
    = (Return tt,
       log (EvPrint (line ("Executing: wget " ++ "http://example.org/a")) :: evs)
         two_connected)
    ∧ exec_commands evs
      = replicate (length (selected (Single i1) two_connected))
          ("wget " ++ "http://example.org/a").
Proof.
  apply (download_file_from_url_all_report one_group_provider
           "http://example.org/a" (Single i1) two_connected).
  - reflexivity.
  - intros i Hi. apply list_elem_of_singleton in Hi. rewrite Hi.
    eexists. reflexivity.
  - intros t c. eexists. reflexivity.
Defined.

Section RemoteMore.

Context (W : World).


Lemma upload_one_spec (source_file destination_file : string) (i : Instance)
    (s : State) :
  upload_one W source_file destination_file i s =
  match ssh_clients s !! id i with
  | None => (Raise (KeyError (id i)), s)
  | Some c =>
      let target := path_join (home_directory (config s)) destination_file in
      match w_open_sftp W (trace s) c with
      | Some e => (Raise e, log [EvOpenSftp c] s)
      | None =>
          match w_sftp_put W (trace s ++ [EvOpenSftp c]) c source_file target with
          | Some e => (Raise e, log [EvOpenSftp c; EvSftpPut c source_file target] s)
          | None =>
              (Return tt,
               log [EvOpenSftp c; EvSftpPut c source_file target; EvSftpClose c] s)
          end
      end
  end.
Proof.
  unfold upload_one, lookup_client. monad.
  destruct (ssh_clients s !! id i) as [c|]; [|done]. cbn.
  destruct (w_open_sftp W (trace s) c); [done|]. cbn.
  destruct (w_sftp_put W _ c source_file _); cbn; by rewrite !log_log.
Qed.

(** X14. When every selected instance has a session and the transfers
    succeed, [upload_file_to_instance] returns having, for each instance
    in order, opened a channel, put the file at the join of the home
    directory and the destination name, and closed the channel. *)
Theorem upload_file_to_all (source_file destination_file : string)
    (a : subset) (s : State) :
  untracked a s = false →
  (∀ i, i ∈ selected a s → is_Some (ssh_clients s !! id i)) →
  (∀ t c, w_open_sftp W t c = None) →
  (∀ t c source target, w_sftp_put W t c source target = None) →
  upload_file_to_instance W source_file destination_file a s
  = (Return tt,
     log (upload_events (home_directory (config s)) source_file destination_file
            (ssh_clients s) (selected a s)) s)
  ∧ length (upload_events (home_directory (config s)) source_file destination_file
              (ssh_clients s) (selected a s))
    = (3 * length (selected a s))%nat.
Proof.
  intros Ha Hsess Hopen Hput. split.
  - unfold upload_file_to_instance, bind at 1. rewrite parse_instances_spec, Ha.
    clear Ha. revert Hsess. generalize (selected a s). intros l Hsess.
    assert (Hgen : ∀ s0, ssh_clients s0 = ssh_clients s → config s0 = config s →
              for_each l (upload_one W source_file destination_file) s0
              = (Return tt,
                 log (upload_events (home_directory (config s)) source_file
                        destination_file (ssh_clients s) l) s0)).
    { induction l as [|i l IH]; intros s0 Hm Hcfg; cbn [for_each].
      - cbn. by rewrite log_nil.
      - unfold bind at 1. rewrite upload_one_spec, Hm, Hcfg.
        cbn [upload_events flat_map].
        destruct (Hsess i) as [c ->]; [apply list_elem_of_here|].
        cbn zeta. rewrite Hopen, Hput, IH; [by rewrite log_log| |done|done].
        intros j Hj. apply Hsess. by apply list_elem_of_further. }
    by apply Hgen.
  - induction (selected a s) as [|i l IH]; [done|].
    cbn [upload_events flat_map]. rewrite length_app.
    unfold upload_events in IH. rewrite IH.
    + destruct (Hsess i) as [c ->]; [apply list_elem_of_here|]. cbn. lia.
    + intros j Hj. apply Hsess. by apply list_elem_of_further.
Qed.


End RemoteMore.


(** A file sent to both connected instances. *)
Lemma upload_file_to_all_witness :
  upload_file_to_instance quiet "model.bin" "data/model.bin" AllTracked two_connected
  = (Return tt,
     log (upload_events (home_directory (config two_connected)) "model.bin"
            "data/model.bin" (ssh_clients two_connected)
            (selected AllTracked two_connected)) two_connected)
  ∧ length (upload_events (home_directory (config two_connected)) "model.bin"
              "data/model.bin" (ssh_clients two_connected)
              (selected AllTracked two_connected))
    = (3 * length (selected AllTracked two_connected))%nat.
Proof.
  apply (upload_file_to_all quiet "model.bin" "data/model.bin" AllTracked
           two_connected).
  - reflexivity.
  - intros i Hi. apply elem_of_cons in Hi as [Hi|Hi].
    + rewrite Hi. eexists. reflexivity.
    + apply list_elem_of_singleton in Hi. rewrite Hi. eexists. reflexivity.
  - reflexivity.
  - reflexivity.
Defined.


(** ** Rule sets: ownership and deletion *)

Section Ownership.

Context (W : World).

(** The [except] clause of [create_security_group], entered in state
    [s1] with exception [e], never touches the ownership flag. *)
Lemma create_handler_keeps_flag (e : exn) (s1 : State) (r : outcome unit)
    (s' : State) :
  match e with
  | ClientError message =>
      print "Security group already created" ;;;
      if contains "InvalidGroup.Duplicate" message then
        found <- call_value (EvDescribeSecurityGroups group_name)
                            (w_describe_groups W) ;;
        match found with
        | g :: _ => modify (set_security_group_ids (Some [g]))
        | [] => raise IndexError
        end
      else raise e
  | _ => raise e
  end s1 = (r, s') →
  security_group_created s' = security_group_created s1
  ∧ (security_group_ids s' = security_group_ids s1
     ∨ ∃ g, security_group_ids s' = Some [g]).
Proof.
  destruct e; try (intros [= <- <-]; by split; [|left]).
  monad. destruct (contains _ message).
  - destruct (w_describe_groups W _) as [e'|[|g found]]; intros [= <- <-];
      (split; [done|]); [by left|by left|right; by exists g].
  - intros [= <- <-]. split; [done|by left].
Qed.

(** X16. The ownership flag becomes true only in a call whose creation
    and whose ingress authorisation both succeeded; that call returns
    normally and records the identifier of the rule set it created. *)
Theorem ownership_only_by_creation (s s' : State) (r : outcome unit) :
  create_security_group W s = (r, s') →
  security_group_created s = false →
  security_group_created s' = true →
  r = Return tt
  ∧ ∃ g, w_create_group W (trace s) = inr g
         ∧ w_authorize_ingress W (trace s ++ [create_event]) g = None
         ∧ security_group_ids s' = Some [g]
         ∧ trace s' = (trace s ++ [create_event; EvAuthorizeIngress g])%list.
Proof.
  unfold create_security_group, try_except. intros H Hfalse Htrue.
  destruct (bind _ _ s) as [[[]|e] s1] eqn:Hbody.
  - injection H as <- <-. split; [done|].
    unfold bind, call_value, call, modify in Hbody. fold create_event in Hbody.
    destruct (w_create_group W (trace s)) as [e|g]; [done|].
    cbn in Hbody.
    destruct (w_authorize_ingress W (trace s ++ [create_event]) g) eqn:Ha; [done|].
    injection Hbody as <-. exists g. repeat split; try done.
    cbn. by rewrite <- app_assoc.
  - apply create_handler_keeps_flag in H as [Hflag _].
    assert (security_group_created s1 = security_group_created s) as Hsame.
    { unfold bind, call_value, call, modify in Hbody.
      destruct (w_create_group W (trace s)) as [e0|g].
      - by injection Hbody as _ <-.
      - cbn in Hbody.
        destruct (w_authorize_ingress W _ g); [|done].
        by injection Hbody as _ <-. }
    congruence.
Qed.

(** X17. If the rule set is created but the ingress authorisation is
    refused (by anything but a duplicate-group error), the call raises
    that refusal and the manager records neither the identifier nor the
    ownership: the exit routine will not delete the rule set just
    created. *)
Theorem authorize_failure_records_nothing (s : State) (g : string) (e : exn) :
  w_create_group W (trace s) = inr g →
  w_authorize_ingress W (trace s ++ [create_event]) g = Some e →
  (∀ message, e = ClientError message →
     contains "InvalidGroup.Duplicate" message = false) →
  ∃ printed,
    create_security_group W s
    = (Raise e, log (create_event :: EvAuthorizeIngress g :: printed) s).
Proof.
  intros Hc Ha He. unfold create_security_group. monad. fold create_event.
  rewrite Hc. cbn. rewrite Ha. cbn.
  destruct e; try by (exists []; rewrite log_log).
  rewrite (He message eq_refl). cbn. eexists [_]. by rewrite !log_log.
Qed.

(** X18. A manager that says it owns a rule set knows its identifier:
    true of a new manager, and kept by [create_security_group] however
    the call ends. *)
Theorem owned_group_known_kept (cfg : Config) (groups : option (list string))
    (s s' : State) (r : outcome unit) :
  owned_group_known (init cfg groups)
  ∧ (owned_group_known s →
     create_security_group W s = (r, s') →
     owned_group_known s').
Proof.
  split; [done|]. intros Hs H.
  unfold create_security_group, try_except in H.
  destruct (bind _ _ s) as [[[]|e] s1] eqn:Hbody.
  - injection H as <- <-.
    unfold bind, call_value, call, modify in Hbody.
    destruct (w_create_group W (trace s)) as [e|g]; [done|].
    cbn in Hbody. destruct (w_authorize_ingress W _ g); [done|].
    injection Hbody as <-. intros _. by exists g.
  - assert (Hs1 : security_group_created s1 = security_group_created s
                  ∧ security_group_ids s1 = security_group_ids s).
    { unfold bind, call_value, call, modify in Hbody.
      destruct (w_create_group W (trace s)) as [e0|g].
      - by injection Hbody as _ <-.
      - cbn in Hbody. destruct (w_authorize_ingress W _ g); [|done].
        by injection Hbody as _ <-. }
    destruct Hs1 as [Hf Hi].
    apply create_handler_keeps_flag in H as [Hflag Hids].
    intros Hown. destruct Hids as [Hids|Hids]; [|done].
    rewrite Hids, Hi. apply Hs. congruence.
Qed.

Lemma delete_one_client_error (g : string) (s : State) :
  (w_delete_group W (trace s) g = None
   ∨ ∃ message, w_delete_group W (trace s) g = Some (ClientError message)) →
  ∃ text, delete_one W g s
          = (Return tt,
             log [EvDeleteSecurityGroup (environment_configuration (config s)) g;
                  EvPrint text] s).
Proof.
  unfold delete_one. monad. intros [->|[message ->]]; cbn;
    eexists; by rewrite log_log.
Qed.

Lemma delete_loop_best_effort (groups : list string) :
  (∀ t g, w_delete_group W t g = None
          ∨ ∃ message, w_delete_group W t g = Some (ClientError message)) →
  ∀ s, ∃ evs,
    for_each groups (delete_one W) s = (Return tt, log evs s)
    ∧ deleted_groups evs = groups
    ∧ length evs = (2 * length groups)%nat.
Proof.
  intros Hdel. induction groups as [|g groups IH]; intros s.
  - exists []. by rewrite log_nil.
  - cbn [for_each]. unfold bind at 1.
    destruct (delete_one_client_error g s (Hdel _ _)) as [text ->].
    destruct (IH (log [EvDeleteSecurityGroup (environment_configuration (config s)) g;
                       EvPrint text] s)) as (evs & -> & Hd & Hl).
    eexists. rewrite log_log. split; [done|]. cbn [app].
    change (deleted_groups (EvDeleteSecurityGroup ?b g :: EvPrint ?t :: evs))
      with (g :: deleted_groups evs).
    rewrite Hd. split; [done|]. cbn [length]. lia.
Qed.

(** X19. Deletion is best effort: when the provider answers each
    deletion by a success or by a [ClientError], [delete_security_group]
    returns normally having requested the deletion of every recorded
    identifier, in order, each request followed by one printed line. *)
Theorem delete_security_group_best_effort (s : State) (groups : list string) :
  security_group_ids s = Some groups →
  (∀ t g, w_delete_group W t g = None
          ∨ ∃ message, w_delete_group W t g = Some (ClientError message)) →
  ∃ evs,
    delete_security_group W s = (Return tt, log evs s)
    ∧ deleted_groups evs = groups
    ∧ length evs = (2 * length groups)%nat.
Proof.
  intros Hg Hdel. unfold delete_security_group. monad. rewrite Hg.
  by apply delete_loop_best_effort.
Qed.

Lemma wait_loop_accepted (c : lifecycle) (reached : string) (l : list Instance) :
  (∀ t j, w_instance W t c j = None) →
  ∀ s, for_each l (λ i, instance_call W c i ;;;
                        print ("Instance " ++ id i ++ reached)) s
       = (Return tt, log (wait_events c reached l) s).
Proof.
  intros Hok. induction l as [|x l IH]; intros s; cbn [for_each].
  - by rewrite log_nil.
  - unfold bind at 1. unfold instance_call. monad.
    rewrite Hok. by rewrite log_log, IH, log_log.
Qed.

(** X20. The exit routine does not raise when the provider accepts
    the lifecycle calls and answers deletions by a success or a
    [ClientError], provided the manager knows the rule set it owns: it
    returns, with the session mapping it started with. *)
Theorem cleanup_returns (s : State) :
  owned_group_known s →
  (∀ t c i, w_instance W t c i = None) →
  (∀ t g, w_delete_group W t g = None
          ∨ ∃ message, w_delete_group W t g = Some (ClientError message)) →
  ∃ s' evs,
    cleanup W s = (Return tt, s')
    ∧ trace s' = (trace s ++ evs)%list
    ∧ ssh_clients s' = ssh_clients s.
Proof.
  intros Hown Hlife Hdel.
  assert (Hterm : ∃ evs, terminate_instances W AllTracked (security_group_created s) s
                         = (Return tt, log evs s)).
  { unfold terminate_instances, bind at 1. rewrite parse_instances_spec.
    cbn [untracked given existsb selected]. unfold bind at 1.
    rewrite request_loop_accepted by (intros; apply Hlife).
    unfold bind at 1. destruct (security_group_created s).
    - rewrite wait_loop_accepted by (intros; apply Hlife).
      rewrite close_instance_connections_spec.
      change (untracked ?a (log ?e (log ?e' s))) with (untracked a s).
      rewrite tracked_accepted. eexists. by rewrite !log_log.
    - unfold ret. rewrite close_instance_connections_spec.
      change (untracked ?a (log ?e s)) with (untracked a s).
      rewrite tracked_accepted. eexists. by rewrite !log_log. }
  destruct Hterm as [evs Hterm].
  unfold cleanup. unfold bind at 1, get. unfold bind at 1. rewrite Hterm.
  unfold bind at 1. cbn [security_group_created log set_trace].
  destruct (security_group_created s) eqn:Hflag.
  - destruct (Hown Hflag) as [g Hg].
    unfold delete_security_group. unfold bind at 1, get.
    cbn [security_group_ids log set_trace]. rewrite Hg.
    destruct (delete_loop_best_effort [g] Hdel (log evs s)) as (evs' & -> & _).
    eexists _, (evs ++ evs')%list. rewrite log_log. by repeat split.
  - exists (log evs s), evs. by repeat split.
Qed.

End Ownership.

(** A first call that creates the rule set. *)
Lemma ownership_only_by_creation_witness :
  (create_security_group one_group_provider two_tracked).1 = Return tt
  ∧ ∃ g, w_create_group one_group_provider (trace two_tracked) = inr g
         ∧ w_authorize_ingress one_group_provider
             (trace two_tracked ++ [create_event]) g = None
         ∧ security_group_ids (create_security_group one_group_provider two_tracked).2
           = Some [g]
         ∧ trace (create_security_group one_group_provider two_tracked).2
           = (trace two_tracked ++ [create_event; EvAuthorizeIngress g])%list.
Proof.
  apply (ownership_only_by_creation one_group_provider two_tracked); reflexivity.
Defined.

(** The rule set is created, its ingress rules are refused. *)
Lemma authorize_failure_records_nothing_witness :
  ∃ printed,
    create_security_group broken_shell two_tracked
    = (Raise (ClientError "InvalidPermission.Malformed"),
       log (create_event :: EvAuthorizeIngress "sg-1" :: printed) two_tracked).
Proof.
  apply (authorize_failure_records_nothing broken_shell two_tracked "sg-1"
           (ClientError "InvalidPermission.Malformed")).
  - reflexivity.
  - reflexivity.
  - intros message Hm. injection Hm as Hm. rewrite <- Hm. reflexivity.
Defined.

(** The invariant after a creating call. *)
Lemma owned_group_known_kept_witness :
  owned_group_known (create_security_group quiet two_tracked).2.
Proof.
  apply (owned_group_known_kept quiet sample_config (Some ["sg-0"]) two_tracked
           (create_security_group quiet two_tracked).2
           (create_security_group quiet two_tracked).1).
  - intros Hown. discriminate Hown.
  - reflexivity.
Defined.

(** The owned rule set cannot be deleted: the refusal is printed. *)
Lemma delete_security_group_best_effort_witness :
  ∃ evs,
    delete_security_group broken_shell two_owned = (Return tt, log evs two_owned)
    ∧ deleted_groups evs = ["sg-1"]
    ∧ length evs = (2 * length ["sg-1"])%nat.
Proof.
  apply (delete_security_group_best_effort broken_shell two_owned ["sg-1"]).
  - reflexivity.
  - intros t g. right. eexists. reflexivity.
Defined.

(** The exit routine of an owning manager whose rule set cannot be
    deleted. *)
Lemma cleanup_returns_witness :
  ∃ s' evs,
    cleanup broken_shell two_owned = (Return tt, s')
    ∧ trace s' = (trace two_owned ++ evs)%list
    ∧ ssh_clients s' = ssh_clients two_owned.
Proof.
  apply (cleanup_returns broken_shell two_owned).
  - intros _. exists "sg-1". reflexivity.
  - reflexivity.
  - intros t g. right. eexists. reflexivity.
Defined.

(** ** Loading instances *)

Section Load.

Context (W : World) (C : Cloud).

(** One turn of the loop of [load_instances]. *)
Lemma load_from_cons (k : nat) (i : Instance) (l : list Instance) (f : Fleet) :
  load_from W C k (i :: l) f =
  let waited := set_manager (log [EvInstance WaitUntilRunning (id i)] (manager f)) f in
  match w_instance W (trace (manager f)) WaitUntilRunning i with
  | Some e => (Raise e, waited)
  | None =>
      match c_load C (trace (manager waited)) (requests waited) i with
      | inl e => (Raise e, add_request (ReqLoad (id i)) waited)
      | inr address =>
          load_from W C (S k) l
            (refresh k i address (add_request (ReqLoad (id i)) waited))
      end
  end.
Proof.
  cbn [load_from]. unfold fbind at 1. unfold lift, instance_call, call.
  destruct (w_instance W (trace (manager f)) WaitUntilRunning i); [done|].
  cbn zeta. unfold fbind at 1. unfold ask.
  cbn [manager set_manager requests trace log set_trace].
  destruct (c_load C _ (requests f) i) as [e|address]; [done|].
  by unfold fbind at 1.
Qed.

Lemma instance_in_identifiers (i : Instance) (l1 l2 : list Instance) :
  id <$> l1 = id <$> l2 → instance_in i l1 = instance_in i l2.
Proof.
  unfold instance_in.
  revert l2. induction l1 as [|x l1 IH]; intros [|y l2] H; try done.
  injection H as Hxy H. cbn [existsb]. unfold instance_eqb at 1 3.
  by rewrite Hxy, (IH l2 H).
Qed.

Lemma load_from_identifiers (l : list Instance) :
  ∀ k f r f',
    drop k (id <$> instances (manager f)) = id <$> l →
    load_from W C k l f = (r, f') →
    id <$> instances (manager f') = id <$> instances (manager f)
    ∧ ssh_clients (manager f') = ssh_clients (manager f).
Proof.
  induction l as [|i l IH]; intros k f r f' Hk H.
  - by injection H as <- <-.
  - rewrite load_from_cons in H. cbn zeta in H.
    destruct (w_instance W _ _ i); [by injection H as <- <-|].
    destruct (c_load C _ _ i) as [e|address]; [by injection H as <- <-|].
    assert (Hat : (id <$> instances (manager f)) !! k = Some (id i)).
    { rewrite <- (Nat.add_0_r k), <- lookup_drop. by rewrite Hk. }
    assert (Hsame : id <$> <[k := {| id := id i; public_ip_address := address |}]>
                            (instances (manager f))
                    = id <$> instances (manager f)).
    { rewrite list_fmap_insert. by apply list_insert_id. }
    apply IH in H as [Hi Hs].
    + split; [|done]. rewrite Hi. cbn. exact Hsame.
    + cbn [manager refresh set_manager instances set_instances add_request log
           set_trace].
      rewrite Hsame. rewrite (drop_S _ _ _ Hat) in Hk. by injection Hk.
Qed.

(** X24. However [load_instances] ends, the tracked collection has the
    same identifiers in the same order and the sessions are untouched; so
    a subset is accepted after the call exactly when it was before. *)
Theorem load_instances_keeps_identifiers (f f' : Fleet) (r : outcome unit) :
  load_instances W C f = (r, f') →
  id <$> instances (manager f') = id <$> instances (manager f)
  ∧ ssh_clients (manager f') = ssh_clients (manager f)
  ∧ ∀ a, untracked a (manager f') = untracked a (manager f).
Proof.
  intros H. unfold load_instances, fbind, fget in H.
  apply load_from_identifiers in H as [Hi Hs]; [|by rewrite drop_0].
  split; [done|]. split; [done|].
  intros a. unfold untracked. induction (given a) as [|x l IH]; [done|].
  cbn. by rewrite IH, (instance_in_identifiers x _ _ Hi).
Qed.

Lemma load_from_returns (l : list Instance) :
  ∀ k f f',
    load_from W C k l f = (Return tt, f') →
    trace (manager f')
    = (trace (manager f) ++ ((λ i, EvInstance WaitUntilRunning (id i)) <$> l))%list
    ∧ requests f' = (requests f ++ load_requests (trace (manager f)) l)%list.
Proof.
  induction l as [|i l IH]; intros k f f' H.
  - injection H as <-. cbn. by rewrite !app_nil_r.
  - rewrite load_from_cons in H. cbn zeta in H.
    destruct (w_instance W _ _ i); [done|].
    destruct (c_load C _ _ i) as [e|address]; [done|].
    apply IH in H as [Ht Hq]. rewrite Ht, Hq. cbn. by rewrite <- !app_assoc.
Qed.

Lemma load_from_progress (l : list Instance) :
  ∀ k f r f',
    load_from W C k l f = (r, f') →
    ∃ n m,
      trace (manager f') = (trace (manager f) ++ wait_calls (take n l))%list
      ∧ requests f' = (requests f ++ load_requests (trace (manager f)) (take m l))%list
      ∧ security_group_ids (manager f') = security_group_ids (manager f)
      ∧ security_group_created (manager f') = security_group_created (manager f)
      ∧ (r = Return tt → n = length l ∧ m = length l).
Proof.
  induction l as [|i l IH]; intros k f r f' H.
  - injection H as <- <-. exists 0%nat, 0%nat. cbn. by rewrite !app_nil_r.
  - rewrite load_from_cons in H. cbn zeta in H.
    destruct (w_instance W _ _ i).
    { injection H as <- <-. exists 1%nat, 0%nat. cbn. by rewrite app_nil_r. }
    destruct (c_load C _ _ i) as [e|address].
    { injection H as <- <-. by exists 1%nat, 1%nat. }
    apply IH in H as (n & m & Ht & Hq & Hg & Hc & Hr).
    exists (S n), (S m). rewrite Ht, Hq, Hg, Hc. cbn.
    rewrite <- !app_assoc. repeat (split; [done|]).
    intros Hret. destruct (Hr Hret) as [-> ->]. done.
Qed.

(** X25. When [load_instances] returns it has, for each tracked
    instance in order, waited for the running state and then, with that
    wait as the last event, refreshed the instance; it has made no other
    call. *)
Theorem load_instances_waits_then_loads (f f' : Fleet) :
  load_instances W C f = (Return tt, f') →
  trace (manager f')
  = (trace (manager f)
     ++ ((λ i, EvInstance WaitUntilRunning (id i)) <$> instances (manager f)))%list
  ∧ requests f'
    = (requests f ++ load_requests (trace (manager f)) (instances (manager f)))%list.
Proof. intros H. by apply load_from_returns in H. Qed.

End Load.

(** The two connected instances loaded again. *)
Lemma load_instances_keeps_identifiers_witness :
  id <$> instances (manager (load_instances quiet two_created connected_fleet).2)
  = id <$> instances (manager connected_fleet)
  ∧ ssh_clients (manager (load_instances quiet two_created connected_fleet).2)
    = ssh_clients (manager connected_fleet)
  ∧ ∀ a, untracked a (manager (load_instances quiet two_created connected_fleet).2)
         = untracked a (manager connected_fleet).
Proof.
  apply (load_instances_keeps_identifiers quiet two_created connected_fleet _
           (load_instances quiet two_created connected_fleet).1).
  reflexivity.
Defined.

Lemma load_instances_waits_then_loads_witness :
  trace (manager (load_instances quiet two_created connected_fleet).2)
  = (trace (manager connected_fleet)
     ++ ((λ i, EvInstance WaitUntilRunning (id i))
           <$> instances (manager connected_fleet)))%list
  ∧ requests (load_instances quiet two_created connected_fleet).2
    = (requests connected_fleet
       ++ load_requests (trace (manager connected_fleet))
            (instances (manager connected_fleet)))%list.
Proof.
  apply (load_instances_waits_then_loads quiet two_created connected_fleet).
  vm_compute. reflexivity.
Defined.

(** ** Creating instances *)

(** Unfolding the monad of fleets. *)
Ltac fmonad :=
  unfold fbind, fret, fraise, fget, ftry, lift, ask, tell in *; cbn in *.

Section Provision.

Context (W : World) (C : Cloud).

(** What [create_security_group] never touches. *)
Lemma create_security_group_frame (s s' : State) (r : outcome unit) :
  create_security_group W s = (r, s') →
  instances s' = instances s ∧ ssh_clients s' = ssh_clients s
  ∧ config s' = config s.
Proof.
  unfold create_security_group. monad.
  destruct (w_create_group W (trace s)) as [e|g]; cbn.
  - destruct e; try (by intros [= <- <-]). cbn.
    destruct (contains _ message); cbn; [|by intros [= <- <-]].
    destruct (w_describe_groups W _) as [e'|[|g found]]; by intros [= <- <-].
  - destruct (w_authorize_ingress W _ g) as [e|]; cbn; [|by intros [= <- <-]].
    destruct e; try (by intros [= <- <-]). cbn.
    destruct (contains _ message); cbn; [|by intros [= <- <-]].
    destruct (w_describe_groups W _) as [e'|[|g' found]]; by intros [= <- <-].
Qed.

(** The body of [create_instances], step by step. *)
Lemma create_instances_spec (wait_for_running : bool) (f : Fleet) :
  create_instances W C wait_for_running f =
  match (match security_group_ids (manager f) with
         | None => create_security_group W (manager f)
         | Some _ => (Return tt, manager f)
         end) with
  | (Raise e, s1) => (Raise e, set_manager s1 f)
  | (Return _, s1) =>
      let f1 := set_manager s1 f in
      match c_create_instances C (trace s1) (requests f) with
      | inl e => (Raise e, add_request (creation_request f1) f1)
      | inr created =>
          let f2 := set_manager (set_instances created s1)
                      (add_request (creation_request f1) f1) in
          if wait_for_running
          then fbind (load_instances W C)
                 (λ _, fbind fget (λ f3, fret (instances (manager f3)))) f2
          else (Return created, f2)
      end
  end.
Proof.
  unfold create_instances. unfold fbind at 1, fget at 1. unfold fbind at 1.
  destruct (security_group_ids (manager f)) as [groups|] eqn:Hg.
  - unfold fret at 1. unfold fbind at 1, fget at 1. unfold fbind at 1, ask.
    replace (set_manager (manager f) f) with f by by destruct f.
    unfold creation_request.
    destruct (c_create_instances C _ _) as [e|created]; [done|].
    unfold fbind at 1. destruct wait_for_running; [done|].
    by unfold fbind, fret, fget.
  - unfold lift. destruct (create_security_group W (manager f)) as [[[]|e] s1]; [|done].
    unfold fbind at 1, fget at 1. unfold fbind at 1, ask.
    cbn [manager set_manager requests template]. unfold creation_request.
    cbn [manager set_manager requests template].
    destruct (c_create_instances C _ _) as [e|created]; [done|].
    unfold fbind at 1. destruct wait_for_running; [done|].
    by unfold fbind, fret, fget.
Qed.

(** The end of [create_instances] once the provider has answered
    [created] and they are tracked: whatever the flag and however the
    call ends, the answered instances stay the tracked ones, only waits
    are added to the trace and only refreshes to the requests. *)
Lemma create_instances_end (wait_for_running : bool) (f2 : Fleet)
    (r : outcome (list Instance)) (f' : Fleet) :
  (if wait_for_running
   then fbind (load_instances W C)
          (λ _, fbind fget (λ f3, fret (instances (manager f3)))) f2
   else (Return (instances (manager f2)), f2)) = (r, f') →
  id <$> instances (manager f') = id <$> instances (manager f2)
  ∧ (∀ l, r = Return l → l = instances (manager f'))
  ∧ ssh_clients (manager f') = ssh_clients (manager f2)
  ∧ security_group_ids (manager f') = security_group_ids (manager f2)
  ∧ security_group_created (manager f') = security_group_created (manager f2)
  ∧ ∃ n m,
      trace (manager f')
      = (trace (manager f2) ++ wait_calls (take n (instances (manager f2))))%list
      ∧ requests f'
        = (requests f2
           ++ load_requests (trace (manager f2)) (take m (instances (manager f2))))%list
      ∧ (if wait_for_running
         then (∃ l, r = Return l) →
              n = length (instances (manager f2)) ∧ m = length (instances (manager f2))
         else n = 0%nat ∧ m = 0%nat).
Proof.
  destruct wait_for_running.
  - unfold fbind at 1. unfold load_instances at 1. unfold fbind at 1, fget at 1.
    destruct (load_from W C 0 (instances (manager f2)) f2) as [r0 f3] eqn:Hload.
    pose proof Hload as Hids.
    apply load_from_identifiers in Hids as [Hi Hs]; [|by rewrite drop_0].
    apply load_from_progress in Hload as (n & m & Ht & Hq & Hg & Hc & Hr).
    destruct r0 as [[]|e]; unfold fbind, fget, fret; intros [= <- <-].
    + repeat (split; [done|]). split; [by intros l [= <-]|].
      repeat (split; [done|]). exists n, m. repeat (split; [done|]).
      intros _. by apply Hr.
    + repeat (split; [done|]). exists n, m. repeat (split; [done|]).
      by intros [l ?].
  - intros [= <- <-]. repeat (split; [done|]). split; [by intros l [= <-]|].
    repeat (split; [done|]). exists 0%nat, 0%nat. cbn. by rewrite !app_nil_r.
Qed.

(** X21. With a rule set already configured, [create_instances]
    creates no rule set, whatever [wait_for_running] is. When the
    provider answers the creation request, the answered instances replace
    the tracked collection: however the call ends, by a return or by an
    exception of [load_instances], the tracked identifiers are the
    answered ones, the sessions and the rule-set identifiers are kept,
    the trace has grown by waits only and the requests by the creation
    request followed by refreshes. Without [wait_for_running] the call
    makes no wait and no refresh and returns the answer; with it
    (the default) the call goes on as [load_instances] and returns the
    tracked collection, every instance waited for and refreshed. An
    instance that is not among the answered ones is then refused by
    validation. *)
Theorem create_instances_replaces_tracked (f : Fleet) (wait_for_running : bool)
    (groups : list string) (created : list Instance)
    (r : outcome (list Instance)) (f' : Fleet) :
  security_group_ids (manager f) = Some groups →
  c_create_instances C (trace (manager f)) (requests f) = inr created →
  create_instances W C wait_for_running f = (r, f') →
  let f1 := set_manager (set_instances created (manager f))
              (add_request (creation_request f) f) in
  (r, f') = (if wait_for_running
             then fbind (load_instances W C)
                    (λ _, fbind fget (λ f3, fret (instances (manager f3)))) f1
             else (Return created, f1))
  ∧ id <$> instances (manager f') = id <$> created
  ∧ (∀ l, r = Return l → l = instances (manager f'))
  ∧ ssh_clients (manager f') = ssh_clients (manager f)
  ∧ security_group_ids (manager f') = Some groups
  ∧ security_group_created (manager f') = security_group_created (manager f)
  ∧ (∃ n m,
       trace (manager f') = (trace (manager f) ++ wait_calls (take n created))%list
       ∧ requests f'
         = (requests f
            ++ (trace (manager f), creation_request f)
               :: load_requests (trace (manager f)) (take m created))%list
       ∧ (if wait_for_running
          then (∃ l, r = Return l) → n = length created ∧ m = length created
          else n = 0%nat ∧ m = 0%nat))
  ∧ ∀ old, instance_in old created = false →
           untracked (Single old) (manager f') = true.
Proof.
  intros Hg Hc H f1. rewrite create_instances_spec, Hg in H.
  replace (set_manager (manager f) f) with f in H by by destruct f.
  rewrite Hc in H. cbn zeta in H. fold f1 in H.
  split; [done|].
  apply (create_instances_end wait_for_running f1) in H
    as (Hi & Hr & Hs & Hgs & Hcr & n & m & Ht & Hq & Hn).
  split; [done|]. split; [done|]. split; [done|]. split; [by rewrite Hgs|].
  split; [done|]. split.
  - exists n, m. split; [done|]. split; [|done].
    rewrite Hq. cbn [f1 requests set_manager add_request manager set_instances
                     trace instances].
    by rewrite <- app_assoc.
  - intros old Hold. unfold untracked. cbn [given existsb].
    rewrite (instance_in_identifiers old _ _ Hi).
    change (instances (manager f1)) with created. by rewrite Hold.
Qed.

(** X22. Without a configured rule set, [create_instances] first calls
    [create_security_group]; if that call raises, so does
    [create_instances], before any creation request: the tracked
    collection and the sessions are the ones it started with. *)
Theorem create_instances_group_failure (f : Fleet) (wait_for_running : bool)
    (e : exn) (s1 : State) :
  security_group_ids (manager f) = None →
  create_security_group W (manager f) = (Raise e, s1) →
  create_instances W C wait_for_running f = (Raise e, set_manager s1 f)
  ∧ requests (set_manager s1 f) = requests f
  ∧ instances s1 = instances (manager f)
  ∧ ssh_clients s1 = ssh_clients (manager f).
Proof.
  intros Hg Hc. split; [|split; [done|]].
  - unfold create_instances. fmonad. by rewrite Hg, Hc.
  - by apply create_security_group_frame in Hc as (? & ? & _).
Qed.

(** X23. Without a configured rule set, when [create_security_group]
    returns, the creation request is made after it and carries the
    identifier just recorded, whatever [wait_for_running] is. However
    the call then ends, the answered instances are the tracked ones and
    the recorded identifier is kept; without [wait_for_running] the call
    returns the answer at once, with it (the default) it goes on as
    [load_instances] and returns the tracked collection. *)
Theorem create_instances_lazy_group (f : Fleet) (wait_for_running : bool)
    (s1 : State) (created : list Instance)
    (r : outcome (list Instance)) (f' : Fleet) :
  security_group_ids (manager f) = None →
  create_security_group W (manager f) = (Return tt, s1) →
  c_create_instances C (trace s1) (requests f) = inr created →
  create_instances W C wait_for_running f = (r, f') →
  let f1 := set_manager s1 f in
  let f2 := set_manager (set_instances created s1)
              (add_request (creation_request f1) f1) in
  (r, f') = (if wait_for_running
             then fbind (load_instances W C)
                    (λ _, fbind fget (λ f3, fret (instances (manager f3)))) f2
             else (Return created, f2))
  ∧ (∃ g, security_group_ids s1 = Some [g]
          ∧ security_group_ids (manager f') = Some [g])
  ∧ id <$> instances (manager f') = id <$> created
  ∧ (∀ l, r = Return l → l = instances (manager f'))
  ∧ ∃ n m,
      trace (manager f') = (trace s1 ++ wait_calls (take n created))%list
      ∧ requests f'
        = (requests f
           ++ (trace s1, creation_request f1)
              :: load_requests (trace s1) (take m created))%list
      ∧ (if wait_for_running
         then (∃ l, r = Return l) → n = length created ∧ m = length created
         else n = 0%nat ∧ m = 0%nat).
Proof.
  intros Hg Hc Hi H f1 f2. rewrite create_instances_spec, Hg, Hc in H.
  cbn zeta in H. fold f1 in H. rewrite Hi in H. fold f2 in H.
  split; [done|].
  apply (create_instances_end wait_for_running f2) in H
    as (Hids & Hr & Hs & Hgs & Hcr & n & m & Ht & Hq & Hn).
  split; [|split; [done|split; [done|]]].
  - assert (∃ g, security_group_ids s1 = Some [g]) as [g Hone].
    { unfold create_security_group in Hc. monad.
      destruct (w_create_group W (trace (manager f))) as [e|g]; cbn in Hc.
      + destruct e; try done. cbn in Hc.
        destruct (contains _ message); cbn in Hc; [|done].
        destruct (w_describe_groups W _) as [e'|[|g found]]; try done.
        injection Hc as <-. by exists g.
      + destruct (w_authorize_ingress W _ g) as [e|]; cbn in Hc.
        * destruct e; try done. cbn in Hc.
          destruct (contains _ message); cbn in Hc; [|done].
          destruct (w_describe_groups W _) as [e'|[|g' found]]; try done.
          injection Hc as <-. by exists g'.
        * injection Hc as <-. by exists g. }
    exists g. split; [done|]. by rewrite Hgs.
  - exists n, m. split; [done|]. split; [|done].
    rewrite Hq. cbn [f2 f1 requests set_manager add_request manager set_instances
                     trace instances].
    by rewrite <- app_assoc.
Qed.

End Provision.

(** A second batch created by a connected manager, by the default
    call. *)
Lemma create_instances_replaces_tracked_witness :
  let r := Return [{| id := "i-3"; public_ip_address := "10.0.1.i-3" |};
                   {| id := "i-4"; public_ip_address := "10.0.1.i-4" |}] in
  let f' := (create_instances quiet two_created true connected_fleet).2 in
  let created := [pending "i-3"; pending "i-4"] in
  let f1 := set_manager (set_instances created (manager connected_fleet))
              (add_request (creation_request connected_fleet) connected_fleet) in
  (r, f') = fbind (load_instances quiet two_created)
              (λ _, fbind fget (λ f3, fret (instances (manager f3)))) f1
  ∧ id <$> instances (manager f') = id <$> created
  ∧ (∀ l, r = Return l → l = instances (manager f'))
  ∧ ssh_clients (manager f') = ssh_clients (manager connected_fleet)
  ∧ security_group_ids (manager f') = Some ["sg-0"]
  ∧ security_group_created (manager f')
    = security_group_created (manager connected_fleet)
  ∧ (∃ n m,
       trace (manager f')
       = (trace (manager connected_fleet) ++ wait_calls (take n created))%list
       ∧ requests f'
         = (requests connected_fleet
            ++ (trace (manager connected_fleet), creation_request connected_fleet)
               :: load_requests (trace (manager connected_fleet)) (take m created))%list
       ∧ ((∃ l, r = Return l) → n = length created ∧ m = length created))
  ∧ ∀ old, instance_in old created = false →
           untracked (Single old) (manager f') = true.
Proof.
  apply (create_instances_replaces_tracked quiet two_created connected_fleet true
           ["sg-0"] [pending "i-3"; pending "i-4"]).
  - reflexivity.
  - reflexivity.
  - vm_compute. reflexivity.
Defined.

(** A new manager whose rule set is created but whose rules are refused. *)
Lemma create_instances_group_failure_witness :
  create_instances broken_shell two_created true new_fleet
  = (Raise (ClientError "InvalidPermission.Malformed"),
     set_manager (create_security_group broken_shell (manager new_fleet)).2 new_fleet)
  ∧ requests (set_manager (create_security_group broken_shell (manager new_fleet)).2
                new_fleet)
    = requests new_fleet
  ∧ instances (create_security_group broken_shell (manager new_fleet)).2
    = instances (manager new_fleet)
  ∧ ssh_clients (create_security_group broken_shell (manager new_fleet)).2
    = ssh_clients (manager new_fleet).
Proof.
  apply (create_instances_group_failure broken_shell two_created new_fleet true
           (ClientError "InvalidPermission.Malformed")); reflexivity.
Defined.

(** A new manager that creates its rule set, then its instances, by
    the default call. *)
Lemma create_instances_lazy_group_witness :
  let s1 := (create_security_group quiet (manager new_fleet)).2 in
  let r := Return [{| id := "i-3"; public_ip_address := "10.0.1.i-3" |};
                   {| id := "i-4"; public_ip_address := "10.0.1.i-4" |}] in
  let f' := (create_instances quiet two_created true new_fleet).2 in
  let created := [pending "i-3"; pending "i-4"] in
  let f1 := set_manager s1 new_fleet in
  let f2 := set_manager (set_instances created s1)
              (add_request (creation_request f1) f1) in
  (r, f') = fbind (load_instances quiet two_created)
              (λ _, fbind fget (λ f3, fret (instances (manager f3)))) f2
  ∧ (∃ g, security_group_ids s1 = Some [g]
          ∧ security_group_ids (manager f') = Some [g])
  ∧ id <$> instances (manager f') = id <$> created
  ∧ (∀ l, r = Return l → l = instances (manager f'))
  ∧ ∃ n m,
      trace (manager f') = (trace s1 ++ wait_calls (take n created))%list
      ∧ requests f'
        = (requests new_fleet
           ++ (trace s1, creation_request f1)
              :: load_requests (trace s1) (take m created))%list
      ∧ ((∃ l, r = Return l) → n = length created ∧ m = length created).
Proof.
  apply (create_instances_lazy_group quiet two_created new_fleet true
           (create_security_group quiet (manager new_fleet)).2
           [pending "i-3"; pending "i-4"]).
  - reflexivity.
  - reflexivity.
  - reflexivity.
  - vm_compute. reflexivity.
Defined.

(** ** Downloading a file *)

Section Download.

Context (W : World) (C : Cloud).

(** Every way [download_file_from_instance] can go. *)
Lemma download_file_from_instance_spec (source_file destination_file : string)
    (i : Instance) (f : Fleet) :
  download_file_from_instance W C source_file destination_file i f =
  let s := manager f in
  let reraise (e : exn) (f1 : Fleet) :=
    match e with
    | KeyError _ =>
        (Raise e, set_manager (log [EvPrint no_connection_text] (manager f1)) f1)
    | _ => (Raise e, f1)
    end in
  match ssh_clients s !! id i with
  | None => reraise (KeyError (id i)) f
  | Some c =>
      let opened := set_manager (log [EvOpenSftp c] s) f in
      match w_open_sftp W (trace s) c with
      | Some e => reraise e opened
      | None =>
          let got := add_request (ReqSftpGet c source_file destination_file) opened in
          match c_sftp_get C (trace (manager opened)) (requests f) c
                  source_file destination_file with
          | Some e => reraise e got
          | None => (Return tt, set_manager (log [EvSftpClose c] (manager got)) got)
          end
      end
  end.
Proof.
  unfold download_file_from_instance, lookup_client, no_connection_text.
  unfold fbind, fret, fraise, fget, ftry, lift, ask, tell. monad.
  destruct (ssh_clients (manager f) !! id i) as [c|]; [|done]. simpl.
  destruct (w_open_sftp W (trace (manager f)) c) as [e|]; simpl.
  { by destruct e. }
  destruct (c_sftp_get C _ (requests f) c source_file destination_file) as [e|]; simpl.
  { by destruct e. }
  done.
Qed.

(** X26. For an instance without a session,
    [download_file_from_instance] prints its diagnostic and raises the
    lookup failure again; no channel is opened and no transfer requested. *)
Theorem download_without_session (source_file destination_file : string)
    (i : Instance) (f : Fleet) :
  ssh_clients (manager f) !! id i = None →
  download_file_from_instance W C source_file destination_file i f
  = (Raise (KeyError (id i)),
     set_manager (log [EvPrint no_connection_text] (manager f)) f).
Proof.
  intros H. rewrite download_file_from_instance_spec. cbn zeta. by rewrite H.
Qed.

(** X27. [download_file_from_instance] does not look at the tracked
    collection: whatever instances are tracked, an instance whose
    identifier has a session gets a channel opened, the file fetched and
    the channel closed, and the call returns. *)
Theorem download_ignores_tracking (source_file destination_file : string)
    (i : Instance) (f : Fleet) (c : client) (tracked : list Instance) :
  ssh_clients (manager f) !! id i = Some c →
  w_open_sftp W (trace (manager f)) c = None →
  c_sftp_get C (trace (manager f) ++ [EvOpenSftp c]) (requests f) c
    source_file destination_file = None →
  let f0 := set_manager (set_instances tracked (manager f)) f in
  download_file_from_instance W C source_file destination_file i f0
  = (Return tt,
     {| manager := log [EvOpenSftp c; EvSftpClose c] (manager f0);
        template := template f;
        requests := (requests f
                     ++ [((trace (manager f) ++ [EvOpenSftp c])%list,
                          ReqSftpGet c source_file destination_file)])%list |}).
Proof.
  intros Hc Hopen Hget f0. subst f0.
  rewrite download_file_from_instance_spec. cbn zeta.
  cbn [manager set_manager ssh_clients set_instances trace requests log set_trace
       add_request template].
  rewrite Hc, Hopen.
  cbn [manager set_manager ssh_clients set_instances trace requests log set_trace
       add_request template].
  rewrite Hget. unfold set_manager, add_request, log, set_trace, set_instances.
  cbn. by rewrite <- app_assoc.
Qed.

(** X28. A transfer that raises anything but a [KeyError] leaves the
    channel open: the exception goes out of
    [download_file_from_instance] with the channel opened, the transfer
    requested, no close of the channel and nothing printed. *)
Theorem download_failure_leaves_channel (source_file destination_file : string)
    (i : Instance) (f : Fleet) (c : client) (e : exn) :
  ssh_clients (manager f) !! id i = Some c →
  w_open_sftp W (trace (manager f)) c = None →
  c_sftp_get C (trace (manager f) ++ [EvOpenSftp c]) (requests f) c
    source_file destination_file = Some e →
  (∀ key, e ≠ KeyError key) →
  download_file_from_instance W C source_file destination_file i f
  = (Raise e,
     add_request (ReqSftpGet c source_file destination_file)
       (set_manager (log [EvOpenSftp c] (manager f)) f)).
Proof.
  intros Hc Hopen Hget He. rewrite download_file_from_instance_spec.
  cbn zeta. rewrite Hc, Hopen.
  cbn [manager set_manager trace log set_trace]. rewrite Hget.
  destruct e; try done. by destruct (He key).
Qed.

End Download.

(** A download from an instance of some other manager. *)
Lemma download_without_session_witness :
  download_file_from_instance quiet two_created "out.csv" "out.csv" stranger
    connected_fleet
  = (Raise (KeyError (id stranger)),
     set_manager (log [EvPrint no_connection_text] (manager connected_fleet))
       connected_fleet).
Proof.
  apply (download_without_session quiet two_created "out.csv" "out.csv" stranger
           connected_fleet).
  reflexivity.
Defined.

(** A download from the first instance after the tracked collection was
    replaced by a second batch. *)
Lemma download_ignores_tracking_witness :
  let f0 := set_manager
              (set_instances [pending "i-3"; pending "i-4"] (manager connected_fleet))
              connected_fleet in
  download_file_from_instance quiet two_created "out.csv" "out.csv" i1 f0
  = (Return tt,
     {| manager := log [EvOpenSftp 0%nat; EvSftpClose 0%nat] (manager f0);
        template := template connected_fleet;
        requests := (requests connected_fleet
                     ++ [((trace (manager connected_fleet) ++ [EvOpenSftp 0%nat])%list,
                          ReqSftpGet 0%nat "out.csv" "out.csv")])%list |}).
Proof.
  apply (download_ignores_tracking quiet two_created "out.csv" "out.csv" i1
           connected_fleet 0%nat [pending "i-3"; pending "i-4"]); reflexivity.
Defined.

(** A transfer that fails on the second instance. *)
Lemma download_failure_leaves_channel_witness :
  download_file_from_instance quiet no_capacity "out.csv" "out.csv" i2 connected_fleet
  = (Raise (OtherError "IOError"),
     add_request (ReqSftpGet 1%nat "out.csv" "out.csv")
       (set_manager (log [EvOpenSftp 1%nat] (manager connected_fleet))
          connected_fleet)).
Proof.
  apply (download_failure_leaves_channel quiet no_capacity "out.csv" "out.csv" i2
           connected_fleet 1%nat (OtherError "IOError")); try reflexivity.
  intros key Hkey. discriminate Hkey.
Defined.
